(** * ha-cam-tag: the capture / detect / debounce pipeline of [ha_cam_tag/__main__.py]

    A shallow embedding of the module: the tag pattern and its matcher, the
    debounce test, the body of [detector_loop], [load_config], and [main]
    with its supervisor loop, run together with the detector thread and the
    SIGINT handler as a step function over one program state.

    Conventions.  Text is a [string] of 8-bit characters.  Points in time
    and durations are integers, in microseconds.  Code that logs, acts on
    the outside and may raise lives in the monad [M]: what it did, and a
    value or an exception.  The two threads advance one statement (or one
    run of statements that touch only their own locals) at a time, in any
    order; what the video source, the decoder, the clock and the sink
    answer is given from outside: the source as a script in the state, the
    rest with each step of the detector. *)

From Stdlib Require Import ZArith String Ascii List Bool Lia.
From stdpp Require Import base option list gmap strings.
Import ListNotations.

Local Open Scope Z_scope.

(** ** Exceptions and results *)

(** The exception classes the module can meet.  [KeyboardInterrupt] and
    [SystemExit] derive from [BaseException] only; all the others are
    subclasses of [Exception]. *)
Inductive pyexn :=
| Cv2Error (msg : string)
| RequestException (msg : string)
| KeyError (key : string)
| TypeError (msg : string)
| NameError (name : string)
| UnboundLocalError (name : string)
| OtherException (msg : string)
| KeyboardInterrupt
| SystemExit (code : Z).

Definition is_Exception (e : pyexn) : bool :=
  match e with
  | KeyboardInterrupt | SystemExit _ => false
  | _ => true
  end.

Inductive result (A : Type) :=
| Ok (a : A)
| Raise (e : pyexn).
Arguments Ok {A} a.
Arguments Raise {A} e.

(** ** Regular expressions: the fragment [TAG_ID_PATTERN] is written in *)

Module Re.

(** One pattern position that consumes one character. *)
Inductive atom :=
| Lit (c : ascii)    (* an ordinary character: matches itself *)
| Dot.               (* [.] without DOTALL: anything but a line feed *)

Definition newline : ascii := ascii_of_nat 10.

Definition atom_matches (a : atom) (c : ascii) : bool :=
  match a with
  | Lit x => Ascii.eqb x c
  | Dot => negb (Ascii.eqb c newline)
  end.

(** How [re.compile] reads a stretch of pattern text that has no
    brackets, escapes or quantifiers: [.] is the wildcard, every other
    character is a literal. *)
Fixpoint atoms_of (p : string) : list atom :=
  match p with
  | EmptyString => []
  | String c p' =>
      (if Ascii.eqb c "."%char then Dot else Lit c) :: atoms_of p'
  end.

(** A bracketed set: inclusive ranges ([x-y]) and single characters (a
    range from a character to itself). *)
Definition char_class := list (ascii * ascii).

Definition in_class (cls : char_class) (c : ascii) : bool :=
  existsb (fun r => (nat_of_ascii (fst r) <=? nat_of_ascii c)%nat
                    && (nat_of_ascii c <=? nat_of_ascii (snd r))%nat) cls.

(** A pattern [<atoms>([<class>]+)]: a run of single-character positions
    followed by one capturing group, a greedy one-or-more repetition of a
    set. *)
Record pattern := { prefix : list atom; group1 : char_class }.

(** Consume the text against the atoms, left to right; the result is the
    text that is left. *)
Fixpoint match_atoms (p : list atom) (s : string) : option string :=
  match p with
  | [] => Some s
  | a :: p' =>
      match s with
      | EmptyString => None
      | String c s' => if atom_matches a c then match_atoms p' s' else None
      end
  end.

(** The longest run of characters of the set at the head of the text,
    and what follows it. *)
Fixpoint span (cls : char_class) (s : string) : string * string :=
  match s with
  | EmptyString => (EmptyString, EmptyString)
  | String c s' =>
      if in_class cls c
      then let r := span cls s' in (String c (fst r), snd r)
      else (EmptyString, s)
  end.

(** [pattern.match(text)]: anchored at the start of the text only.  The
    group is the last item of the pattern, so the greedy repetition keeps
    its longest run; it needs at least one character.  The result is
    [m.group(1)], or [None] where Python returns no match object. *)
Definition match_ (p : pattern) (text : string) : option string :=
  match match_atoms (prefix p) text with
  | None => None
  | Some rest =>
      match fst (span (group1 p) rest) with
      | EmptyString => None
      | tok => Some tok
      end
  end.

End Re.

(** ** Module constants *)

(** [timedelta(seconds=5)]; points in time and durations are counted in
    microseconds, the resolution of [datetime]. *)
Definition DEBOUNCE_PERIOD : Z := 5 * 1000000.

(** [re.compile(r'https://www.home-assistant.io/tag/([0-9a-fA-F-]+)')] *)
Definition TAG_ID_PATTERN : Re.pattern :=
  {| Re.prefix := Re.atoms_of "https://www.home-assistant.io/tag/";
     Re.group1 := [("0", "9"); ("a", "f"); ("A", "F"); ("-", "-")]%char |}.

Definition is_tag_char (c : ascii) : bool :=
  Re.in_class (Re.group1 TAG_ID_PATTERN) c.

(** [data and (m := TAG_ID_PATTERN.match(data))], then [m.group(1)]: the
    identifier carried by a decoded text, if any. *)
Definition extract_tag_id (data : string) : option string :=
  match data with
  | EmptyString => None
  | _ => Re.match_ TAG_ID_PATTERN data
  end.

(** ** Debounce test (line 64) *)

Record debounce_state := {
  last_time : option Z;
  last_tag : option string
}.

(** [last_time, last_tag = None, None] *)
Definition debounce_init : debounce_state :=
  {| last_time := None; last_tag := None |}.

(** [last_tag != tag_id]; [None] differs from every string. *)
Definition tag_differs (last : option string) (tag_id : string) : bool :=
  match last with
  | None => true
  | Some t => negb (String.eqb t tag_id)
  end.

(** [last_tag != tag_id or last_time < cur_time - DEBOUNCE_PERIOD].  [or]
    evaluates its right operand only when the left one is false; comparing
    [None] with a [datetime] raises [TypeError]. *)
Definition should_emit (st : debounce_state) (tag_id : string) (cur_time : Z)
  : result bool :=
  if tag_differs (last_tag st) tag_id then Ok true
  else match last_time st with
       | None => Raise (TypeError "'<' not supported between instances of 'NoneType' and 'datetime.datetime'")
       | Some t => Ok (t <? cur_time - DEBOUNCE_PERIOD)
       end.

(** ** What the code logs and does to the outside *)

Inductive loglevel := DEBUG | INFO | ERROR | EXCEPTION.

(** Parsed JSON, as [json.load] returns it. *)
#[local] Set Warnings "-register-all".
Inductive json :=
| JNull
| JBool (b : bool)
| JNumber (z : Z)
| JString (s : string)
| JArray (l : list json)
| JObject (d : gmap string json).
#[local] Set Warnings "register-all".

(** Python objects the two loops hold in variables. *)
Definition frame := nat.

Inductive value :=
| VNone
| VFrame (f : frame)
| VObject.              (* a module, function, constant, ... *)

Inductive action :=
| ALog (level : loglevel) (msg : string)
| AOpen (opened : bool)                        (* cv2.VideoCapture(...) *)
| ARead (ret : bool) (img : option frame)      (* stream.read() *)
| ASetCv                                       (* cv.set() *)
| ARelease                                     (* stream.release() *)
| ASleep (seconds : Z)                         (* time.sleep(...) *)
| ADestroyAllWindows
| ADecode (img : value)                        (* detector.detectAndDecode(frame) *)
| APost (tag_id : string) (device_id : json).  (* requests.post(...) *)

(** A computation that logs and acts, and ends with a value or an
    exception. *)
Definition M (A : Type) : Type := list action * result A.

Definition ret {A} (a : A) : M A := ([], Ok a).
Definition raise {A} (e : pyexn) : M A := ([], Raise e).
Definition emit (a : action) : M unit := ([a], Ok tt).
Definition lift {A} (r : result A) : M A := ([], r).

Definition bind {A B} (m : M A) (k : A -> M B) : M B :=
  match m with
  | (l, Ok a) => let r := k a in (l ++ fst r, snd r)
  | (l, Raise e) => (l, Raise e)
  end.

Notation "'let!' x := m 'in' k" := (bind m (fun x => k))
  (at level 10, x name, m at level 100, k at level 200).
Notation "m ;;! k" := (bind m (fun _ => k))
  (at level 100, k at level 200, right associativity).

(** ** Configuration *)

(** What [open(CONFIG_PATH)] and [json.load] find. *)
Inductive config_file :=
| FileMissing                      (* FileNotFoundError *)
| FileMalformed (msg : string)     (* json.JSONDecodeError *)
| FileParsed (j : json).

(** [load_config()]; [sys.exit(1)] raises [SystemExit(1)]. *)
Definition load_config (file : config_file) : M json :=
  match file with
  | FileParsed j => ret j
  | FileMissing =>
      emit (ALog ERROR "Configuration file not found.") ;;!
      raise (SystemExit 1)
  | FileMalformed msg =>
      emit (ALog ERROR ("Error decoding JSON config: " +:+ msg)) ;;!
      raise (SystemExit 1)
  end.

(** [config[key]] *)
Definition getitem (config : json) (key : string) : result json :=
  match config with
  | JObject d =>
      match d !! key with
      | Some v => Ok v
      | None => Raise (KeyError key)
      end
  | JArray _ => Raise (TypeError "list indices must be integers or slices, not str")
  | JString _ => Raise (TypeError "string indices must be integers, not 'str'")
  | _ => Raise (TypeError "object is not subscriptable")
  end.

(** The options the spec calls recognized. *)
Definition recognized_options : list string :=
  ["camera_rtsp_stream"; "tag_event_device_id"]%string.

Definition has_option (config : json) (key : string) : bool :=
  match getitem config key with
  | Ok _ => true
  | Raise _ => false
  end.

(** ** The detector's work on one frame (lines 60 to 70) *)

Inductive decode_outcome :=
| Decoded (data : string)      (* the text; empty when no code is seen *)
| DecodeRaises (e : pyexn).

Inductive post_outcome :=
| PostOk
| PostRaises (e : pyexn).

(** What the outside answers while one frame is processed. *)
Record det_oracle := {
  decode : decode_outcome;     (* detector.detectAndDecode(frame) *)
  now : Z;                     (* datetime.now() *)
  post : post_outcome          (* requests.post + raise_for_status *)
}.

Definition detectAndDecode (img : value) (o : decode_outcome) : M string :=
  emit (ADecode img) ;;!
  match o with
  | Decoded data => ret data
  | DecodeRaises e => raise e
  end.

(** [send_tag_event(tag_id, device_id)] *)
Definition send_tag_event (tag_id : string) (device_id : json)
    (o : post_outcome) : M unit :=
  emit (APost tag_id device_id) ;;!
  match o with
  | PostOk =>
      emit (ALog INFO ("Successfully sent tag event for " +:+ tag_id))
  | PostRaises (RequestException msg) =>
      emit (ALog ERROR ("Failed to send tag event: " +:+ msg))
  | PostRaises e => raise e
  end.

(** The [try] suite, lines 61 to 66. *)
Definition try_suite (config : json) (st : debounce_state) (img : value)
    (o : det_oracle) : M debounce_state :=
  let! data := detectAndDecode img (decode o) in
  match extract_tag_id data with
  | None => ret st
  | Some tag_id =>
      let cur_time := now o in
      let! go := lift (should_emit st tag_id cur_time) in
      if (go : bool) then
        let! device_id := lift (getitem config "tag_event_device_id") in
        send_tag_event tag_id device_id (post o) ;;!
        ret {| last_time := Some cur_time; last_tag := Some tag_id |}
      else ret st
  end.

(** The whole [try] statement: [except cv2.error] first, then [except
    Exception]; anything else leaves the statement.  A handled exception
    leaves the debounce variables as they were. *)
Definition process_frame (config : json) (st : debounce_state) (img : value)
    (o : det_oracle) : M debounce_state :=
  match try_suite config st img o with
  | (l, Ok st') => (l, Ok st')
  | (l, Raise (Cv2Error msg)) =>
      (l ++ [ALog ERROR ("OpenCV error: " +:+ msg)], Ok st)
  | (l, Raise e) =>
      if is_Exception e
      then (l ++ [ALog EXCEPTION "Unexpected error"], Ok st)
      else (l, Raise e)
  end.

(** ** The program state *)

(** The video source: what each successive [cv2.VideoCapture(...)] meets.
    A source that connects hands out the listed [read()] results, then
    reports end of stream; once the list of attempts is used up the source
    stays unreachable.  [Rejects]: the call itself raises [cv2.error], as
    it does for an address that is neither text nor a device number (a
    list, null, a boolean, an object). *)
Inductive attempt :=
| Unreachable
| Connects (reads : list (bool * option frame))
| Rejects (msg : string).

(** A [cv2.VideoCapture] object. *)
Record capture := {
  opened : bool;
  pending : list (bool * option frame)
}.

Definition VideoCapture (camera : list attempt)
  : result capture * list attempt :=
  match camera with
  | Connects reads :: camera' =>
      (Ok {| opened := true; pending := reads |}, camera')
  | Unreachable :: camera' => (Ok {| opened := false; pending := [] |}, camera')
  | Rejects msg :: camera' => (Raise (Cv2Error msg), camera')
  | [] => (Ok {| opened := false; pending := [] |}, [])
  end.

Definition read (c : capture) : (bool * option frame) * capture :=
  match pending c with
  | r :: rest => (r, {| opened := opened c; pending := rest |})
  | [] => ((false, None), c)
  end.

Definition release (c : capture) : capture :=
  {| opened := false; pending := pending c |}.

(** [gui]: the OpenCV build has window support; on a headless build
    [cv2.destroyAllWindows()] raises [cv2.error]. *)
Record world := {
  camera : list attempt;
  file : config_file;
  gui : bool
}.

Inductive thread_status := NotStarted | Running | Finished.

(** What both threads and the signal handler can reach: the module's
    global names, the two [threading.Event]s, the loaded configuration, the
    SIGINT disposition and the detector's [Thread] object. *)
Record shared := {
  globals : gmap string value;
  config : json;
  exiting : bool;
  cv : bool;
  sigint_handler : bool;          (* line 86 has run *)
  detector_thread : thread_status
}.

(** The names bound at module level.  [frame] is not one of them: the
    assignments to [frame] in [main] (lines 78 and 97) bind a local of
    [main], and the parameter [frame] of the handler is local to the
    lambda. *)
Definition module_globals : gmap string value :=
  list_to_map (map (fun n => (n, VObject))
    ["logging"; "re"; "signal"; "sys"; "threading"; "time"; "json"; "os";
     "requests"; "datetime"; "timedelta"; "cv2"; "CONFIG_PATH"; "API_URL";
     "AUTH_TOKEN"; "DEBOUNCE_PERIOD"; "TAG_ID_PATTERN"; "send_tag_event";
     "load_config"; "detector_loop"; "main"]%string).

(** Program points of [main], named by the line about to run. *)
Inductive main_pc :=
| M_load_config          (* 76 *)
| M_create_events        (* 77-79 *)
| M_start_detector       (* 82-83 *)
| M_install_handler      (* 86 *)
| M_outer_test           (* 89 *)
| M_open                 (* 90 *)
| M_opened_test          (* 91 *)
| M_open_failed          (* 92-94 *)
| M_inner_test           (* 96 *)
| M_read                 (* 97 *)
| M_frame_test           (* 98-102 *)
| M_release              (* 104 *)
| M_backoff              (* 105 *)
| M_except               (* 107-110 *)
| M_finally (pending_exn : option pyexn)   (* 111-113 *)
| M_join                 (* 115 *)
| M_return               (* 116-117 *)
| M_exited (code : Z)    (* sys.exit(code) *)
| M_died (e : pyexn).    (* an exception left the main thread *)

(** The locals of [main]. *)
Record main_thread := {
  mpc : main_pc;
  ret_local : bool;
  frame_local : option frame;
  stream : option capture;       (* [None]: not bound yet *)
  main_log : list action
}.

(** Program points of [detector_loop]. *)
Inductive det_pc :=
| D_setup                (* 54-55 *)
| D_loop_test            (* 57 *)
| D_wait                 (* 58 *)
| D_frame_test           (* 59, 71-72 *)
| D_try (img : value)    (* 60-70 *)
| D_clear                (* 73 *)
| D_returned
| D_died (e : pyexn).

Record det_thread := {
  dpc : det_pc;
  debounce : debounce_state;
  det_log : list action
}.

Record state := {
  env : world;
  sh : shared;
  mt : main_thread;
  dt : det_thread
}.

(** ** One step of [main] *)

Definition set_exiting (b : bool) (s : shared) : shared :=
  {| globals := globals s; config := config s; exiting := b; cv := cv s;
     sigint_handler := sigint_handler s; detector_thread := detector_thread s |}.

Definition set_cv (b : bool) (s : shared) : shared :=
  {| globals := globals s; config := config s; exiting := exiting s; cv := b;
     sigint_handler := sigint_handler s; detector_thread := detector_thread s |}.

Definition set_config (j : json) (s : shared) : shared :=
  {| globals := globals s; config := j; exiting := exiting s; cv := cv s;
     sigint_handler := sigint_handler s; detector_thread := detector_thread s |}.

Definition set_handler (b : bool) (s : shared) : shared :=
  {| globals := globals s; config := config s; exiting := exiting s; cv := cv s;
     sigint_handler := b; detector_thread := detector_thread s |}.

Definition set_thread (t : thread_status) (s : shared) : shared :=
  {| globals := globals s; config := config s; exiting := exiting s; cv := cv s;
     sigint_handler := sigint_handler s; detector_thread := t |}.

Definition goto (pc : main_pc) (l : list action) (m : main_thread) : main_thread :=
  {| mpc := pc; ret_local := ret_local m; frame_local := frame_local m;
     stream := stream m; main_log := main_log m ++ l |}.

Definition set_stream (c : capture) (m : main_thread) : main_thread :=
  {| mpc := mpc m; ret_local := ret_local m; frame_local := frame_local m;
     stream := Some c; main_log := main_log m |}.

Definition set_read (r : bool * option frame) (m : main_thread) : main_thread :=
  {| mpc := mpc m; ret_local := fst r; frame_local := snd r;
     stream := stream m; main_log := main_log m |}.

Definition set_frame (f : option frame) (m : main_thread) : main_thread :=
  {| mpc := mpc m; ret_local := ret_local m; frame_local := f;
     stream := stream m; main_log := main_log m |}.

(** Where an exception raised inside the [try] of [main] goes: to the
    [except KeyboardInterrupt] clause, or through [finally] and out. *)
Definition raised_in_try (e : pyexn) : main_pc :=
  match e with
  | KeyboardInterrupt => M_except
  | _ => M_finally (Some e)
  end.

Definition main_step (w : world) (s : shared) (m : main_thread)
  : world * shared * main_thread :=
  match mpc m with
  | M_load_config =>
      match load_config (file w) with
      | (l, Ok j) => (w, set_config j s, goto M_create_events l m)
      | (l, Raise (SystemExit c)) => (w, s, goto (M_exited c) l m)
      | (l, Raise e) => (w, s, goto (M_died e) l m)
      end
  | M_create_events =>
      (w, set_cv false (set_exiting false s),
       goto M_start_detector [] (set_frame None m))
  | M_start_detector =>
      (w, set_thread Running s, goto M_install_handler [] m)
  | M_install_handler =>
      (w, set_handler true s, goto M_outer_test [] m)
  | M_outer_test =>
      if exiting s then (w, s, goto (M_finally None) [] m)
      else (w, s, goto M_open [] m)
  | M_open =>
      match getitem (config s) "camera_rtsp_stream" with
      | Raise e => (w, s, goto (raised_in_try e) [] m)
      | Ok _ =>
          let (r, camera') := VideoCapture (camera w) in
          let w' := {| camera := camera'; file := file w; gui := gui w |} in
          match r with
          | Ok c =>
              (w', s, goto M_opened_test [AOpen (opened c)] (set_stream c m))
          | Raise e => (w', s, goto (raised_in_try e) [] m)
          end
      end
  | M_opened_test =>
      match stream m with
      | None => (w, s, goto (raised_in_try (UnboundLocalError "stream")) [] m)
      | Some c =>
          if opened c then (w, s, goto M_inner_test [] m)
          else (w, s, goto M_open_failed [] m)
      end
  | M_open_failed =>
      (w, s, goto M_outer_test
               [ALog ERROR "Failed to open camera stream."; ASleep 5] m)
  | M_inner_test =>
      match stream m with
      | None => (w, s, goto (raised_in_try (UnboundLocalError "stream")) [] m)
      | Some c =>
          if opened c && negb (exiting s) then (w, s, goto M_read [] m)
          else (w, s, goto M_release [] m)
      end
  | M_read =>
      match stream m with
      | None => (w, s, goto (raised_in_try (UnboundLocalError "stream")) [] m)
      | Some c =>
          let (r, c') := read c in
          (w, s, goto M_frame_test [ARead (fst r) (snd r)]
                   (set_read r (set_stream c' m)))
      end
  | M_frame_test =>
      match ret_local m, frame_local m with
      | true, Some _ => (w, set_cv true s, goto M_inner_test [ASetCv] m)
      | _, _ =>
          (w, s, goto M_release
                   [ALog ERROR "Failed to capture frame or frame is None."] m)
      end
  | M_release =>
      match stream m with
      | None => (w, s, goto (raised_in_try (UnboundLocalError "stream")) [] m)
      | Some c => (w, s, goto M_backoff [ARelease] (set_stream (release c) m))
      end
  | M_backoff => (w, s, goto M_outer_test [ASleep 5] m)
  | M_except =>
      (w, set_cv true (set_exiting true s),
       goto (M_finally None)
         [ALog INFO "Exiting due to keyboard interrupt."; ASetCv] m)
  | M_finally pending_exn =>
      match stream m with
      | None => (w, s, goto (M_died (UnboundLocalError "stream")) [] m)
      | Some c =>
          let m' := set_stream (release c) m in
          if gui w then
            match pending_exn with
            | Some e => (w, s, goto (M_died e) [ARelease; ADestroyAllWindows] m')
            | None => (w, s, goto M_join [ARelease; ADestroyAllWindows] m')
            end
          else
            (* the exception raised in [finally] replaces a pending one *)
            (w, s, goto (M_died (Cv2Error "The function is not implemented"))
                     [ARelease] m')
      end
  | M_join =>
      match detector_thread s with
      | Running => (w, s, m)      (* blocked until the thread ends *)
      | Finished => (w, s, goto M_return [] m)
      | NotStarted =>
          (w, s, goto (M_died (OtherException "cannot join thread before it is started")) [] m)
      end
  | M_return => (w, s, goto (M_exited 0) [ALog INFO "Exited gracefully."] m)
  | M_exited _ | M_died _ => (w, s, m)
  end.

(** ** One step of [detector_loop] *)

Definition dgoto (pc : det_pc) (l : list action) (d : det_thread) : det_thread :=
  {| dpc := pc; debounce := debounce d; det_log := det_log d ++ l |}.

Definition set_debounce (st : debounce_state) (d : det_thread) : det_thread :=
  {| dpc := dpc d; debounce := st; det_log := det_log d |}.

Definition detector_loop_step (o : det_oracle) (s : shared) (d : det_thread)
  : shared * det_thread :=
  match dpc d with
  | D_setup => (s, dgoto D_loop_test [] (set_debounce debounce_init d))
  | D_loop_test =>
      if exiting s then (set_thread Finished s, dgoto D_returned [] d)
      else (s, dgoto D_wait [] d)
  | D_wait =>
      if cv s then (s, dgoto D_frame_test [] d)
      else (s, d)                 (* blocked in cv.wait() *)
  | D_frame_test =>
      (* [frame] is neither a parameter nor a local of [detector_loop]: it
         is looked up among the module's globals *)
      match globals s !! "frame"%string with
      | None => (set_thread Finished s, dgoto (D_died (NameError "frame")) [] d)
      | Some VNone => (s, dgoto D_clear [ALog DEBUG "No frame to process."] d)
      | Some img => (s, dgoto (D_try img) [] d)
      end
  | D_try img =>
      match process_frame (config s) (debounce d) img o with
      | (l, Ok st') => (s, dgoto D_clear l (set_debounce st' d))
      | (l, Raise e) => (set_thread Finished s, dgoto (D_died e) l d)
      end
  | D_clear => (set_cv false s, dgoto D_loop_test [] d)
  | D_returned | D_died _ => (s, d)
  end.

(** ** SIGINT *)

(** Program points inside the [try] suite of [main] (lines 89 to 105). *)
Definition in_try (pc : main_pc) : bool :=
  match pc with
  | M_outer_test | M_open | M_opened_test | M_open_failed | M_inner_test
  | M_read | M_frame_test | M_release | M_backoff => true
  | _ => false
  end.

(** Delivery of one SIGINT.  Once line 86 has run, the handler is [lambda
    sig, frame: exiting.set()].  Before that, Python's default handler
    raises [KeyboardInterrupt] in the main thread. *)
Definition sigint (s : shared) (m : main_thread) : shared * main_thread :=
  if sigint_handler s then (set_exiting true s, m)
  else
    match mpc m with
    | M_exited _ | M_died _ => (s, m)
    | pc =>
        if in_try pc then (s, goto M_except [] m)
        else (s, goto (M_died KeyboardInterrupt) [] m)
    end.

(** ** The process *)

(** How the process ended. *)
Inductive termination :=
| Exited (code : Z)           (* [sys.exit(code)] *)
| Died (e : pyexn).           (* traceback of the main thread; status not 0 *)

(** The interpreter leaves once the main thread is done and the detector
    thread, which is not a daemon, is not running. *)
Definition terminated (st : state) : option termination :=
  match detector_thread (sh st) with
  | Running => None
  | _ =>
      match mpc (mt st) with
      | M_exited c => Some (Exited c)
      | M_died e => Some (Died e)
      | _ => None
      end
  end.

(** What happens next: the main thread runs one step, the detector thread
    runs one step (with what the decoder, the clock and the sink answer),
    or a SIGINT arrives. *)
Inductive event :=
| EMain
| EDetector (o : det_oracle)
| ESigint.

Definition step (e : event) (st : state) : state :=
  match terminated st with
  | Some _ => st
  | None =>
      match e with
      | EMain =>
          let '(w, s, m) := main_step (env st) (sh st) (mt st) in
          {| env := w; sh := s; mt := m; dt := dt st |}
      | EDetector o =>
          match detector_thread (sh st) with
          | Running =>
              let (s, d) := detector_loop_step o (sh st) (dt st) in
              {| env := env st; sh := s; mt := mt st; dt := d |}
          | _ => st
          end
      | ESigint =>
          let (s, m) := sigint (sh st) (mt st) in
          {| env := env st; sh := s; mt := m; dt := dt st |}
      end
  end.

(** A run: the events in the order they happen. *)
Fixpoint run (sched : list event) (st : state) : state :=
  match sched with
  | [] => st
  | e :: sched' => run sched' (step e st)
  end.

(** The process as [python -m ha_cam_tag] starts it, on an OpenCV build
    with window support. *)
Definition init (f : config_file) (cam : list attempt) : state :=
  {| env := {| camera := cam; file := f; gui := true |};
     sh := {| globals := module_globals; config := JNull; exiting := false;
              cv := false; sigint_handler := false;
              detector_thread := NotStarted |};
     mt := {| mpc := M_load_config; ret_local := false; frame_local := None;
              stream := None; main_log := [] |};
     dt := {| dpc := D_setup; debounce := debounce_init; det_log := [] |} |}.

(** ** Vocabulary of the statements *)

Fixpoint string_all (p : ascii -> bool) (s : string) : bool :=
  match s with
  | EmptyString => true
  | String c s' => p c && string_all p s'
  end.

(** A token: one or more hex digits and hyphens. *)
Definition is_token (tok : string) : bool :=
  match tok with
  | EmptyString => false
  | _ => string_all is_tag_char tok
  end.

Definition head_is_tag_char (s : string) : bool :=
  match s with
  | EmptyString => false
  | String c _ => is_tag_char c
  end.

(** The fixed base URL followed by [/tag/]. *)
Definition TAG_URL_PREFIX : string := "https://www.home-assistant.io/tag/".

(** Calls of the event sink in a log. *)
Definition is_post (a : action) : bool :=
  match a with
  | APost _ _ => true
  | _ => false
  end.

Definition dispatches (l : list action) : nat :=
  length (List.filter is_post l).

(** [send_tag_event] returns: the sink accepted the event, or failed with a
    [RequestException], which [send_tag_event] handles itself. *)
Definition sink_answers (p : post_outcome) : bool :=
  match p with
  | PostOk | PostRaises (RequestException _) => true
  | PostRaises _ => false
  end.

(** The detector's work on a series of frames, one [try] statement after
    the other on the same debounce variables. *)
Fixpoint process_frames (config : json) (st : debounce_state)
    (fs : list (value * det_oracle)) : M debounce_state :=
  match fs with
  | [] => ret st
  | (img, o) :: fs' =>
      let! st' := process_frame config st img o in
      process_frames config st' fs'
  end.

(** The same decoded text reported twice, [delta] microseconds apart. *)
Definition two_reports (config : json) (data : string) (t delta : Z)
    (p1 p2 : post_outcome) : list action :=
  fst (process_frames config debounce_init
         [(VFrame 1%nat, {| decode := Decoded data; now := t; post := p1 |});
          (VFrame 2%nat, {| decode := Decoded data; now := t + delta; post := p2 |})]).

(** What the decoder and the sink raise are errors, that is, instances of
    [Exception]. *)
Definition errors_only (o : det_oracle) : bool :=
  match decode o with
  | DecodeRaises e => is_Exception e
  | Decoded _ => true
  end
  && match post o with
     | PostRaises e => is_Exception e
     | PostOk => true
     end.

Definition is_decode (a : action) : bool :=
  match a with
  | ADecode _ => true
  | _ => false
  end.

(** The frames the detector handed to the decoder. *)
Definition frames_processed (l : list action) : list action :=
  List.filter is_decode l.

Definition is_error_level (lvl : loglevel) : bool :=
  match lvl with
  | ERROR | EXCEPTION => true
  | _ => false
  end.

(** A configuration with both recognized options. *)
Definition example_config : json :=
  JObject (list_to_map
    [("camera_rtsp_stream", JString "rtsp://camera.local/stream");
     ("tag_event_device_id", JString "front-door")]%string).

(** Program points of [main] from which, once [exiting] is set, no
    [cv.set()] is ahead any more. *)
Definition cannot_publish (pc : main_pc) : bool :=
  match pc with
  | M_outer_test | M_open | M_opened_test | M_open_failed | M_inner_test
  | M_release | M_backoff | M_finally _ | M_join | M_exited _ | M_died _ => true
  | _ => false
  end.

(** The detector sits in [cv.wait()] and nothing that can still happen
    sets [cv]. *)
Definition detector_stranded (st : state) : Prop :=
  exiting (sh st) = true
  /\ sigint_handler (sh st) = true
  /\ detector_thread (sh st) = Running
  /\ dpc (dt st) = D_wait
  /\ cv (sh st) = false
  /\ cannot_publish (mpc (mt st)) = true.

(** The configuration file is missing or does not parse. *)
Definition unusable (f : config_file) : bool :=
  match f with
  | FileMissing | FileMalformed _ => true
  | FileParsed _ => false
  end.

(** Schedules: no interrupt arrives; how many steps the main thread gets. *)
Definition no_sigint (sched : list event) : bool :=
  forallb (fun e => match e with ESigint => false | _ => true end) sched.

Definition is_main (e : event) : bool :=
  match e with
  | EMain => true
  | _ => false
  end.

Definition main_steps (sched : list event) : nat :=
  length (List.filter is_main sched).

(** What one failed connection attempt leaves in the log of [main]: the
    open, the error record, the backoff. *)
Definition failed_attempt : list action :=
  [AOpen false; ALog ERROR "Failed to open camera stream."; ASleep 5].

Definition retry_trace (k : nat) : list action :=
  concat (replicate k failed_attempt).

(** The log of [main] up to the first successful open after [n] failed
    ones. *)
Definition connect_trace (n : nat) : list action :=
  retry_trace n ++ [AOpen true].

Definition is_open (a : action) : bool :=
  match a with
  | AOpen _ => true
  | _ => false
  end.

Definition is_publish (a : action) : bool :=
  match a with
  | ASetCv => true
  | _ => false
  end.

Definition opens (l : list action) : nat := length (List.filter is_open l).
Definition publishes (l : list action) : nat := length (List.filter is_publish l).

(** Texts that follow the prefix up to one character in place of each dot. *)
Definition dotted_url (c1 c2 : ascii) (tail : string) : string :=
  "https://www" +:+ String c1 ("home-assistant" +:+ String c2 ("io/tag/" +:+ tail)).

(** The detector has had no frame and has none in hand. *)
Definition no_frame_in_reach (st : state) : Prop :=
  globals (sh st) = module_globals
  /\ frames_processed (det_log (dt st)) = []
  /\ forall img, dpc (dt st) <> D_try img.

(** With the configuration file [f], the process is at line 76 or already
    gone, and the detector thread was not started. *)
Definition not_started (f : config_file) (st : state) : Prop :=
  detector_thread (sh st) = NotStarted
  /\ sigint_handler (sh st) = false
  /\ file (env st) = f
  /\ (mpc (mt st) = M_load_config
      \/ mpc (mt st) = M_exited 1
      \/ mpc (mt st) = M_died KeyboardInterrupt).

(** The source with [u] failures still ahead of the connection. *)
Definition source (reads : list (bool * option frame)) (rest : list attempt)
    (u : nat) : list attempt :=
  replicate u Unreachable ++ Connects reads :: rest.

(** Where [main] may be with [u] of [n] failures still ahead. *)
Definition valid_pc (n : nat) (pc : main_pc) (u : nat) : bool :=
  match pc with
  | M_load_config | M_create_events | M_start_detector
  | M_install_handler => (u =? n)%nat
  | M_outer_test | M_open => (u <=? n)%nat
  | M_opened_test | M_open_failed => (u <? n)%nat
  | _ => false
  end.

(** What [main] has logged there. *)
Definition expected_log (n : nat) (pc : main_pc) (u : nat) : list action :=
  match pc with
  | M_outer_test | M_open => retry_trace (n - u)
  | M_opened_test | M_open_failed => retry_trace (n - u - 1) ++ [AOpen false]
  | _ => []
  end.

(** Steps of [main] from there up to and including the successful open. *)
Definition remaining (pc : main_pc) (u : nat) : nat :=
  match pc with
  | M_load_config => 4 * u + 6
  | M_create_events => 4 * u + 5
  | M_start_detector => 4 * u + 4
  | M_install_handler => 4 * u + 3
  | M_outer_test => 4 * u + 2
  | M_open => 4 * u + 1
  | M_opened_test => 4 * u + 4
  | M_open_failed => 4 * u + 3
  | _ => 0
  end%nat.

(** The supervisor is on its way to the connection, [u] failures ahead. *)
Record connecting (n : nat) (reads : list (bool * option frame))
    (rest : list attempt) (cfg : json) (st : state) (u : nat) : Prop := {
  c_pc : valid_pc n (mpc (mt st)) u = true;
  c_exiting : mpc (mt st) = M_load_config \/ mpc (mt st) = M_create_events
              \/ exiting (sh st) = false;
  c_camera : camera (env st) = source reads rest u;
  c_log : main_log (mt st) = expected_log n (mpc (mt st)) u;
  c_file : mpc (mt st) = M_load_config -> file (env st) = FileParsed cfg;
  c_config : mpc (mt st) = M_load_config \/ config (sh st) = cfg;
  c_stream : mpc (mt st) = M_opened_test \/ mpc (mt st) = M_open_failed ->
             exists c, stream (mt st) = Some c /\ opened c = false
}.

(** The supervisor has made the successful open. *)
Definition connected (n : nat) (st : state) : Prop :=
  connect_trace n `prefix_of` main_log (mt st).

(** The characters of the bracketed set of [TAG_ID_PATTERN], listed. *)
Definition tag_alphabet : string := "0123456789abcdefABCDEF-".

Definition in_alphabet (c : ascii) : bool :=
  existsb (Ascii.eqb c) (list_ascii_of_string tag_alphabet).

(** The two debounce variables are both [None] or both set. *)
Definition paired (st : debounce_state) : bool :=
  match last_time st, last_tag st with
  | None, None | Some _, Some _ => true
  | _, _ => false
  end.

(** A series of frames that each carry an identifier different from the
    one before ([last] before the first), with a sink that answers. *)
Fixpoint alternating (last : option string) (fs : list (value * det_oracle))
  : bool :=
  match fs with
  | [] => true
  | (_, o) :: fs' =>
      match decode o with
      | Decoded data =>
          match extract_tag_id data with
          | Some tag_id =>
              tag_differs last tag_id && sink_answers (post o)
              && alternating (Some tag_id) fs'
          | None => false
          end
      | DecodeRaises _ => false
      end
  end.

(** Lines 107 to 110 are out of reach: [main] is not at the [except]
    clause, and as long as Python's default SIGINT handling is in place it
    is outside the [try] statement. *)
Definition except_out_of_reach (st : state) : Prop :=
  mpc (mt st) <> M_except
  /\ (sigint_handler (sh st) = false -> in_try (mpc (mt st)) = false).

(** A log of [main] in which an open is only made when [ready]: at the
    start, or after a 5-second sleep that followed the open before. *)
Fixpoint spaced (ready : bool) (l : list action) : bool :=
  match l with
  | [] => true
  | AOpen _ :: l' => ready && spaced false l'
  | ASleep s :: l' => spaced (if s =? 5 then true else ready) l'
  | _ :: l' => spaced ready l'
  end.

Fixpoint ready_after (ready : bool) (l : list action) : bool :=
  match l with
  | [] => ready
  | AOpen _ :: l' => ready_after false l'
  | ASleep s :: l' => ready_after (if s =? 5 then true else ready) l'
  | _ :: l' => ready_after ready l'
  end.

(** Program points of [main] from which the next action on the source is
    an open. *)
Definition before_open (pc : main_pc) : bool :=
  match pc with
  | M_load_config | M_create_events | M_start_detector | M_install_handler
  | M_outer_test | M_open => true
  | _ => false
  end.

Definition opens_are_spaced (st : state) : Prop :=
  spaced true (main_log (mt st)) = true
  /\ (before_open (mpc (mt st)) = true ->
      ready_after true (main_log (mt st)) = true).

(** A log of [main] in which every [cv.set()] comes right after a
    [stream.read()] that returned [True] and a frame. *)
Fixpoint published_after_read (fresh : bool) (l : list action) : bool :=
  match l with
  | [] => true
  | ASetCv :: l' => fresh && published_after_read false l'
  | ARead true (Some _) :: l' => published_after_read true l'
  | _ :: l' => published_after_read false l'
  end.

Fixpoint fresh_after (fresh : bool) (l : list action) : bool :=
  match l with
  | [] => fresh
  | ARead true (Some _) :: l' => fresh_after true l'
  | _ :: l' => fresh_after false l'
  end.

Definition publishes_only_frames (st : state) : Prop :=
  published_after_read false (main_log (mt st)) = true
  /\ (mpc (mt st) = M_frame_test ->
      ret_local (mt st) = true -> is_Some (frame_local (mt st)) ->
      fresh_after false (main_log (mt st)) = true).

(** Program points of [main] that use the [stream] they find bound, or
    lead straight to one that does. *)
Definition needs_stream (pc : main_pc) : bool :=
  match pc with
  | M_opened_test | M_inner_test | M_read | M_frame_test | M_release => true
  | _ => false
  end.

(** [main] is starting up or inside its loop. *)
Definition supervising (pc : main_pc) : bool :=
  before_open pc || in_try pc.

(** No [cv2.VideoCapture] call of the script raises. *)
Definition never_rejects (cam : list attempt) : bool :=
  forallb (fun a => match a with Rejects _ => false | _ => true end) cam.

(** [main] runs with the configuration [cfg], no shutdown requested, on a
    source whose opens return. *)
Definition keeps_supervising (cfg : json) (st : state) : Prop :=
  supervising (mpc (mt st)) = true
  /\ (mpc (mt st) = M_load_config \/ mpc (mt st) = M_create_events
      \/ exiting (sh st) = false)
  /\ (mpc (mt st) = M_load_config -> file (env st) = FileParsed cfg)
  /\ (mpc (mt st) = M_load_config \/ config (sh st) = cfg)
  /\ (needs_stream (mpc (mt st)) = true -> is_Some (stream (mt st)))
  /\ never_rejects (camera (env st)) = true.

(** [main] is on its way out through [return 0] only with the shutdown
    signal set, and past [join] only with the detector thread ended. *)
Definition leaves_gracefully (st : state) : Prop :=
  match mpc (mt st) with
  | M_finally None | M_join => exiting (sh st) = true
  | M_return => exiting (sh st) = true /\ detector_thread (sh st) = Finished
  | M_exited c =>
      c = 0 -> exiting (sh st) = true /\ detector_thread (sh st) = Finished
  | _ => True
  end.

(** The two events exist: lines 77 to 79 have run. *)
Definition events_exist (pc : main_pc) : bool :=
  match pc with
  | M_load_config | M_create_events => false
  | _ => true
  end.

(** Steps of [main] to [sys.exit(0)] at most, once shutdown is requested
    and the detector thread has ended. *)
Definition steps_to_exit (pc : main_pc) : nat :=
  match pc with
  | M_return => 1
  | M_join => 2
  | M_finally _ => 3
  | M_outer_test => 4
  | M_backoff | M_open_failed => 5
  | M_release => 6
  | M_inner_test => 7
  | M_frame_test | M_opened_test => 8
  | M_read | M_open => 9
  | _ => 0
  end%nat.

Definition winding_down (pc : main_pc) : bool :=
  match pc with
  | M_finally None | M_join | M_return | M_exited 0 => true
  | pc => in_try pc
  end.

(** The configured stream address is text. *)
Definition text_address (config : json) : bool :=
  match getitem config "camera_rtsp_stream" with
  | Ok (JString _) => true
  | _ => false
  end.

(** If [main] is about to open the source (line 90), the address is text
    and the call returns. *)
Definition open_returns (st : state) : bool :=
  match mpc (mt st) with
  | M_open => text_address (config (sh st)) && never_rejects (camera (env st))
  | _ => true
  end.

(** Shutdown is requested, the detector thread has ended, the OpenCV
    build has window support, and [main] is in its loop or past it with
    [stream] bound (or about to be bound by an open that returns). *)
Definition shutting_down (st : state) : Prop :=
  exiting (sh st) = true
  /\ sigint_handler (sh st) = true
  /\ detector_thread (sh st) = Finished
  /\ gui (env st) = true
  /\ open_returns st = true
  /\ (mpc (mt st) = M_open \/ is_Some (stream (mt st)))
  /\ winding_down (mpc (mt st)) = true.

(** Program points the detector can be at without a frame in hand. *)
Definition detector_idle (pc : det_pc) : bool :=
  match pc with
  | D_setup | D_loop_test | D_wait | D_frame_test | D_returned
  | D_died (NameError _) => true
  | _ => false
  end.

Definition detector_does_nothing (st : state) : Prop :=
  globals (sh st) = module_globals
  /\ det_log (dt st) = []
  /\ detector_idle (dpc (dt st)) = true.

(** A log of [main] in which no open is made while a stream that opened
    is still unreleased ([held]). *)
Fixpoint released_before_open (held : bool) (l : list action) : bool :=
  match l with
  | [] => true
  | AOpen ok :: l' => negb held && released_before_open ok l'
  | ARelease :: l' => released_before_open false l'
  | _ :: l' => released_before_open held l'
  end.

Fixpoint held_after (held : bool) (l : list action) : bool :=
  match l with
  | [] => held
  | AOpen ok :: l' => held_after ok l'
  | ARelease :: l' => held_after false l'
  | _ :: l' => held_after held l'
  end.

(** Program points of [main] at which no opened stream is outstanding. *)
Definition between_streams (pc : main_pc) : bool :=
  match pc with
  | M_open_failed | M_backoff => true
  | pc => before_open pc
  end.

Definition one_stream_at_a_time (st : state) : Prop :=
  released_before_open false (main_log (mt st)) = true
  /\ (between_streams (mpc (mt st)) = true ->
      held_after false (main_log (mt st)) = false)
  /\ (mpc (mt st) = M_opened_test ->
      forall c, stream (mt st) = Some c ->
      held_after false (main_log (mt st)) = opened c).

(** The configuration in use is the one the file held, unless [main] has
    not loaded it yet or was interrupted before it started the detector. *)
Definition config_is_loaded (j : json) (st : state) : Prop :=
  file (env st) = FileParsed j
  /\ (config (sh st) = j
      \/ (detector_thread (sh st) = NotStarted
          /\ (mpc (mt st) = M_load_config
              \/ mpc (mt st) = M_died KeyboardInterrupt))).

(** A token, said with the listed alphabet: one or more of its
    characters. *)
Definition alphabet_token (tok : string) : bool :=
  match tok with
  | EmptyString => false
  | _ => string_all in_alphabet tok
  end.

(** The text goes on with a character of the alphabet. *)
Definition continues_token (rest : string) : bool :=
  match rest with
  | EmptyString => false
  | String c _ => in_alphabet c
  end.

(** The process on a headless OpenCV build. *)
Definition init_headless (f : config_file) (cam : list attempt) : state :=
  {| env := {| camera := cam; file := f; gui := false |};
     sh := sh (init f cam); mt := mt (init f cam); dt := dt (init f cam) |}.

(** Program points of [main] other than those on the way out through
    [return 0]. *)
Definition no_clean_exit (pc : main_pc) : bool :=
  match pc with
  | M_join | M_return | M_exited 0 => false
  | _ => true
  end.

(** ** Identifier extraction *)

Lemma append_nil (s : string) : EmptyString +:+ s = s.
Proof. reflexivity. Qed.

Lemma append_cons (c : ascii) (s r : string) :
  String c s +:+ r = String c (s +:+ r).
Proof. reflexivity. Qed.

Lemma append_empty (s : string) : s +:+ EmptyString = s.
Proof.
  induction s as [|c s IH]; [reflexivity|]. rewrite append_cons. now f_equal.
Qed.

Section Span.
Variable cls : Re.char_class.

Lemma span_split s :
  s = fst (Re.span cls s) +:+ snd (Re.span cls s).
Proof.
  induction s as [|c s IH]; simpl; [reflexivity|].
  destruct (Re.in_class cls c); [|reflexivity].
  change (String c s = String c (fst (Re.span cls s) +:+ snd (Re.span cls s))).
  f_equal. exact IH.
Qed.

Lemma span_all s : string_all (Re.in_class cls) (fst (Re.span cls s)) = true.
Proof.
  induction s as [|c s IH]; simpl; [reflexivity|].
  destruct (Re.in_class cls c) eqn:E; simpl; [|reflexivity].
  now rewrite E, IH.
Qed.

Lemma span_stops s :
  match snd (Re.span cls s) with
  | EmptyString => True
  | String c _ => Re.in_class cls c = false
  end.
Proof.
  induction s as [|c s IH]; simpl; [exact I|].
  destruct (Re.in_class cls c) eqn:E; simpl; [exact IH | exact E].
Qed.

Lemma span_app tok rest :
  string_all (Re.in_class cls) tok = true ->
  Re.span cls (tok +:+ rest)
  = (tok +:+ fst (Re.span cls rest), snd (Re.span cls rest)).
Proof.
  induction tok as [|c tok IH]; simpl; intros H.
  - rewrite !append_nil. now destruct (Re.span cls rest).
  - apply andb_prop in H as [Hc Ht].
    rewrite !append_cons. simpl. rewrite Hc, (IH Ht). reflexivity.
Qed.
End Span.

Lemma match_atoms_split p : forall s r,
  Re.match_atoms p s = Some r ->
  exists pre, s = pre +:+ r /\ Re.match_atoms p pre = Some EmptyString.
Proof.
  induction p as [|a p IH]; simpl; intros s r H.
  - exists EmptyString. inversion H. split; reflexivity.
  - destruct s as [|c s]; [discriminate|].
    destruct (Re.atom_matches a c) eqn:E; [|discriminate].
    destruct (IH _ _ H) as (pre & -> & Hpre).
    exists (String c pre). simpl. rewrite E. split; [reflexivity | exact Hpre].
Qed.

Lemma head_not_tag_span rest :
  head_is_tag_char rest = false ->
  fst (Re.span (Re.group1 TAG_ID_PATTERN) rest) = EmptyString.
Proof.
  destruct rest as [|c rest]; [reflexivity|]. intros H.
  unfold head_is_tag_char, is_tag_char in H.
  cbn [Re.span]. rewrite H. reflexivity.
Qed.

Lemma extract_sound data tok :
  extract_tag_id data = Some tok ->
  is_token tok = true /\
  exists pre rest,
    data = pre +:+ tok +:+ rest
    /\ Re.match_atoms (Re.prefix TAG_ID_PATTERN) pre = Some EmptyString
    /\ head_is_tag_char rest = false.
Proof.
  unfold extract_tag_id. intros H.
  assert (Hm : Re.match_ TAG_ID_PATTERN data = Some tok)
    by (destruct data; [discriminate | exact H]).
  clear H. unfold Re.match_ in Hm.
  destruct (Re.match_atoms (Re.prefix TAG_ID_PATTERN) data) as [r|] eqn:Ea;
    [|discriminate].
  pose proof (span_split (Re.group1 TAG_ID_PATTERN) r) as Hs.
  pose proof (span_all (Re.group1 TAG_ID_PATTERN) r) as Hall.
  pose proof (span_stops (Re.group1 TAG_ID_PATTERN) r) as Hstop.
  destruct (fst (Re.span (Re.group1 TAG_ID_PATTERN) r)) as [|c t] eqn:Ef;
    [discriminate|].
  inversion Hm; subst tok. split.
  - exact Hall.
  - destruct (match_atoms_split _ _ _ Ea) as (pre & -> & Hpre).
    exists pre, (snd (Re.span (Re.group1 TAG_ID_PATTERN) r)).
    split; [now rewrite <- Hs|]. split; [exact Hpre|].
    destruct (snd (Re.span (Re.group1 TAG_ID_PATTERN) r)); [reflexivity|].
    exact Hstop.
Qed.

(** What the matcher does with a token and whatever follows it, once the
    atoms before the group are consumed. *)
Lemma group_after_prefix tok rest :
  is_token tok = true ->
  match fst (Re.span (Re.group1 TAG_ID_PATTERN) (tok +:+ rest)) with
  | EmptyString => None
  | t => Some t
  end = Some (tok +:+ fst (Re.span (Re.group1 TAG_ID_PATTERN) rest)).
Proof.
  intros H. destruct tok as [|c tok]; [discriminate|].
  rewrite span_app by exact H. reflexivity.
Qed.

Lemma not_newline (c : ascii) :
  c <> Re.newline -> negb (Ascii.eqb c Re.newline) = true.
Proof.
  intros H. destruct (Ascii.eqb_spec c Re.newline); [contradiction | reflexivity].
Qed.

Lemma match_lit c p s :
  Re.match_atoms (Re.Lit c :: p) (String c s) = Re.match_atoms p s.
Proof. cbn [Re.match_atoms Re.atom_matches]. now rewrite Ascii.eqb_refl. Qed.

Lemma match_dot c p s :
  c <> Re.newline ->
  Re.match_atoms (Re.Dot :: p) (String c s) = Re.match_atoms p s.
Proof.
  intros H. cbn [Re.match_atoms Re.atom_matches]. now rewrite not_newline.
Qed.

Ltac expose_prefix :=
  let p := eval vm_compute in (Re.prefix TAG_ID_PATTERN) in
  change (Re.prefix TAG_ID_PATTERN) with p.

Lemma extract_dotted c1 c2 tok rest :
  c1 <> Re.newline -> c2 <> Re.newline -> is_token tok = true ->
  extract_tag_id (dotted_url c1 c2 (tok +:+ rest))
  = Some (tok +:+ fst (Re.span (Re.group1 TAG_ID_PATTERN) rest)).
Proof.
  intros H1 H2 Ht. unfold extract_tag_id, Re.match_, dotted_url.
  expose_prefix. rewrite !append_cons, !append_nil.
  rewrite !match_lit, (match_dot _ _ _ H1), !match_lit, (match_dot _ _ _ H2),
    !match_lit.
  cbn [Re.match_atoms]. apply group_after_prefix, Ht.
Qed.

Lemma match_lit_inv c p s r :
  Re.match_atoms (Re.Lit c :: p) s = Some r ->
  exists s', s = String c s' /\ Re.match_atoms p s' = Some r.
Proof.
  destruct s as [|c' s']; cbn [Re.match_atoms Re.atom_matches];
    [discriminate|].
  destruct (Ascii.eqb_spec c c') as [->|]; [|discriminate].
  intros H. now exists s'.
Qed.

Lemma match_dot_inv p s r :
  Re.match_atoms (Re.Dot :: p) s = Some r ->
  exists c s', s = String c s' /\ c <> Re.newline
               /\ Re.match_atoms p s' = Some r.
Proof.
  destruct s as [|c s']; cbn [Re.match_atoms Re.atom_matches];
    [discriminate|].
  destruct (Ascii.eqb_spec c Re.newline) as [->|Hne]; [discriminate|].
  intros H. now exists c, s'.
Qed.

(** A text the positions before the group consume entirely is the base URL
    with [/tag/], up to the two characters in place of the dots. *)
Lemma prefix_shape pre :
  Re.match_atoms (Re.prefix TAG_ID_PATTERN) pre = Some EmptyString ->
  exists c1 c2,
    c1 <> Re.newline /\ c2 <> Re.newline
    /\ forall tail, pre +:+ tail = dotted_url c1 c2 tail.
Proof.
  expose_prefix. intros H.
  repeat match type of H with
         | Re.match_atoms (Re.Lit _ :: _) _ = _ =>
             let s' := fresh "s" in
             apply match_lit_inv in H as (s' & -> & H)
         end.
  apply match_dot_inv in H as (c1 & s1 & -> & H1 & H).
  repeat match type of H with
         | Re.match_atoms (Re.Lit _ :: _) _ = _ =>
             let s' := fresh "s" in
             apply match_lit_inv in H as (s' & -> & H)
         end.
  apply match_dot_inv in H as (c2 & s2 & -> & H2 & H).
  repeat match type of H with
         | Re.match_atoms (Re.Lit _ :: _) _ = _ =>
             let s' := fresh "s" in
             apply match_lit_inv in H as (s' & -> & H)
         end.
  cbn [Re.match_atoms] in H. injection H as ->.
  exists c1, c2. split; [exact H1|]. split; [exact H2|].
  intros tail. reflexivity.
Qed.

Lemma is_tag_char_in_alphabet (c : ascii) : is_tag_char c = in_alphabet c.
Proof. destruct c as [[] [] [] [] [] [] [] []]; reflexivity. Qed.

Lemma string_all_ext (p q : ascii -> bool) (s : string) :
  (forall c, p c = q c) -> string_all p s = string_all q s.
Proof.
  intros H. induction s as [|c s IH]; [reflexivity|]. cbn. now rewrite H, IH.
Qed.

Lemma is_token_alphabet tok : is_token tok = alphabet_token tok.
Proof.
  destruct tok as [|c tok]; [reflexivity|].
  unfold is_token, alphabet_token. apply string_all_ext, is_tag_char_in_alphabet.
Qed.

Lemma head_is_tag_char_alphabet rest :
  head_is_tag_char rest = continues_token rest.
Proof. destruct rest; [reflexivity | apply is_tag_char_in_alphabet]. Qed.

(** C5: decoded text is matched against the base URL followed by [/tag/]
    and a token of hex digits and hyphens, and only the token is
    extracted.  ["https://www.home-assistant.io/tag/ab12-CD34"] yields
    ["ab12-CD34"], also with more text after it; ["https://example.com/other"],
    a text with one letter of the base URL changed, with another scheme,
    with something ahead of the URL, with no token or with a token that
    does not start with a hex digit or hyphen yields no identifier.  In
    general a text yields the identifier [tok] exactly when it is the base
    URL with [/tag/] (any character but a line feed in place of each of
    its two dots), then [tok], one or more of the characters
    [0123456789abcdefABCDEF-], then a rest that does not go on with such a
    character. *)
Theorem C5_identifier_extraction :
  extract_tag_id "https://www.home-assistant.io/tag/ab12-CD34" = Some "ab12-CD34"%string
  /\ extract_tag_id "https://example.com/other" = None
  /\ extract_tag_id "https://www.home-assistant.io/tag/ab12-CD34/and?more" = Some "ab12-CD34"%string
  /\ extract_tag_id "https://www.home-assistent.io/tag/ab12-CD34" = None
  /\ extract_tag_id "http://www.home-assistant.io/tag/ab12-CD34" = None
  /\ extract_tag_id " https://www.home-assistant.io/tag/ab12-CD34" = None
  /\ extract_tag_id "https://www.home-assistant.io/tags/ab12-CD34" = None
  /\ extract_tag_id "https://www.home-assistant.io/tag/" = None
  /\ extract_tag_id "https://www.home-assistant.io/tag/xyz" = None
  /\ (forall data tok,
        extract_tag_id data = Some tok
        <-> exists c1 c2 rest,
              c1 <> Re.newline /\ c2 <> Re.newline
              /\ alphabet_token tok = true
              /\ continues_token rest = false
              /\ data = dotted_url c1 c2 (tok +:+ rest))
  /\ (forall tok rest,
        alphabet_token tok = true -> continues_token rest = false ->
        extract_tag_id (TAG_URL_PREFIX +:+ tok +:+ rest) = Some tok).
Proof.
  do 9 (split; [reflexivity|]).
  assert (Hback : forall c1 c2 tok rest,
            c1 <> Re.newline -> c2 <> Re.newline ->
            alphabet_token tok = true -> continues_token rest = false ->
            extract_tag_id (dotted_url c1 c2 (tok +:+ rest)) = Some tok).
  { intros c1 c2 tok rest H1 H2 Ht Hr.
    rewrite <- is_token_alphabet in Ht.
    rewrite <- head_is_tag_char_alphabet in Hr.
    rewrite (extract_dotted c1 c2 tok rest H1 H2 Ht).
    rewrite (head_not_tag_span _ Hr). f_equal. apply append_empty. }
  split.
  - intros data tok. split.
    + intros H. apply extract_sound in H as (Ht & pre & rest & -> & Hpre & Hr).
      destruct (prefix_shape pre Hpre) as (c1 & c2 & H1 & H2 & Hshape).
      exists c1, c2, rest.
      rewrite is_token_alphabet in Ht.
      rewrite head_is_tag_char_alphabet in Hr.
      repeat split; try assumption. apply Hshape.
    + intros (c1 & c2 & rest & H1 & H2 & Ht & Hr & ->). now apply Hback.
  - intros tok rest Ht Hr.
    apply (Hback "."%char "."%char tok rest); try assumption; discriminate.
Qed.

(** The general part at the token of the example, with a rest. *)
Lemma C5_identifier_extraction_witness :
  alphabet_token "ab12-CD34" = true
  /\ continues_token "?x=1" = false
  /\ extract_tag_id (TAG_URL_PREFIX +:+ "ab12-CD34" +:+ "?x=1")
     = Some "ab12-CD34"%string.
Proof.
  split; [reflexivity|]. split; [reflexivity|].
  refine (proj2 (proj2 (proj2 (proj2 (proj2 (proj2 (proj2 (proj2 (proj2 (proj2
            C5_identifier_extraction)))))))))
            "ab12-CD34"%string "?x=1"%string eq_refl eq_refl).
Defined.

(** C10, as amended: the dots of the base URL are wildcards and the match
    is anchored at the start only, so any character other than a line feed
    may stand in for each dot, and any trailing text is accepted: the
    identifier is the token extended by the hex digits and hyphens the
    trailing text starts with, hence the token itself when it starts with
    none.  ["https://wwwXhome-assistantXio/tag/ab12"] and
    ["https://www.home-assistant.io/tag/ab12!garbage"] both yield
    ["ab12"]. *)
Theorem C10_loose_matching (c1 c2 : ascii) (tok rest : string) :
  c1 <> Re.newline -> c2 <> Re.newline -> is_token tok = true ->
  extract_tag_id (dotted_url c1 c2 (tok +:+ rest))
  = Some (tok +:+ fst (Re.span (Re.group1 TAG_ID_PATTERN) rest))
  /\ (head_is_tag_char rest = false ->
      extract_tag_id (dotted_url c1 c2 (tok +:+ rest)) = Some tok)
  /\ extract_tag_id "https://wwwXhome-assistantXio/tag/ab12" = Some "ab12"%string
  /\ extract_tag_id "https://www.home-assistant.io/tag/ab12!garbage" = Some "ab12"%string.
Proof.
  intros H1 H2 Ht. split; [now apply extract_dotted|].
  split; [|split; reflexivity].
  intros Hr. rewrite extract_dotted by assumption.
  rewrite (head_not_tag_span _ Hr). f_equal. apply append_empty.
Qed.

Lemma C10_loose_matching_witness :
  extract_tag_id (dotted_url "X" "_" ("ab12" +:+ "!garbage")) = Some "ab12"%string.
Proof.
  refine (proj1 (proj2 (C10_loose_matching "X" "_" "ab12" "!garbage" _ _ _)) _).
  - intros H; vm_compute in H; discriminate H.
  - intros H; vm_compute in H; discriminate H.
  - reflexivity.
  - reflexivity.
Defined.

(** C10 as stated fails for the line feed: it does not stand in for a
    dot. *)
Lemma C10_line_feed_is_no_wildcard_match :
  ~ (forall c : ascii,
       extract_tag_id (dotted_url c "." "ab12") = Some "ab12"%string).
Proof.
  intros H. specialize (H Re.newline). vm_compute in H. discriminate H.
Qed.

(** ** Debounce *)

Lemma should_emit_iff st tag_id cur_time t :
  last_time st = Some t ->
  should_emit st tag_id cur_time = Ok true
  <-> (last_tag st <> Some tag_id \/ DEBOUNCE_PERIOD < cur_time - t).
Proof.
  intros Ht. unfold should_emit, tag_differs. rewrite Ht.
  destruct (last_tag st) as [l|].
  - destruct (String.eqb_spec l tag_id) as [->|Hne]; cbn [negb].
    + destruct (Z.ltb_spec t (cur_time - DEBOUNCE_PERIOD)); split.
      * intros _. right. lia.
      * reflexivity.
      * discriminate.
      * intros [Hc|Hc]; [congruence | lia].
    + split; [|reflexivity]. intros _. left. congruence.
  - split; [|reflexivity]. intros _. left. discriminate.
Qed.

Lemma dispatches_app l1 l2 :
  dispatches (l1 ++ l2) = (dispatches l1 + dispatches l2)%nat.
Proof. unfold dispatches. now rewrite List.filter_app, length_app. Qed.

(** A frame whose text carries [tag_id], met when the gate emits: the sink
    is called once, and when [send_tag_event] returns the debounce
    variables take the new identifier and time. *)
Lemma process_frame_emits config st img o data tag_id device_id :
  decode o = Decoded data ->
  extract_tag_id data = Some tag_id ->
  getitem config "tag_event_device_id" = Ok device_id ->
  should_emit st tag_id (now o) = Ok true ->
  dispatches (fst (process_frame config st img o)) = 1%nat
  /\ (sink_answers (post o) = true ->
      snd (process_frame config st img o)
      = Ok {| last_time := Some (now o); last_tag := Some tag_id |}).
Proof.
  intros Hd Hx Hc He.
  unfold process_frame, try_suite, detectAndDecode, send_tag_event, emit, ret,
    raise, lift.
  rewrite Hd. cbn [bind fst snd app]. rewrite Hx, He. cbn [bind fst snd app].
  rewrite Hc. cbn [bind fst snd app].
  destruct (post o) as [|[]]; cbn; split; try reflexivity; discriminate.
Qed.

Lemma process_frame_suppresses config st img o data tag_id :
  decode o = Decoded data ->
  extract_tag_id data = Some tag_id ->
  should_emit st tag_id (now o) = Ok false ->
  process_frame config st img o = ([ADecode img], Ok st).
Proof.
  intros Hd Hx He.
  unfold process_frame, try_suite, detectAndDecode, emit, ret, lift.
  rewrite Hd. cbn [bind fst snd app]. rewrite Hx, He. reflexivity.
Qed.

Lemma two_reports_dispatches config device_id data tag_id t delta p1 p2 :
  getitem config "tag_event_device_id" = Ok device_id ->
  extract_tag_id data = Some tag_id ->
  sink_answers p1 = true ->
  dispatches (two_reports config data t delta p1 p2)
  = if DEBOUNCE_PERIOD <? delta then 2%nat else 1%nat.
Proof.
  intros Hc Hx Hp. unfold two_reports. cbn [process_frames].
  set (o1 := {| decode := Decoded data; now := t; post := p1 |}).
  set (o2 := {| decode := Decoded data; now := t + delta; post := p2 |}).
  destruct (process_frame_emits config debounce_init (VFrame 1%nat) o1 data
              tag_id device_id eq_refl Hx Hc eq_refl) as [Hn1 Hs1].
  specialize (Hs1 Hp).
  destruct (process_frame config debounce_init (VFrame 1%nat) o1) as [l1 r1].
  cbn [fst snd] in Hn1, Hs1. subst r1. cbn [bind ret fst snd].
  set (st1 := {| last_time := Some (now o1); last_tag := Some tag_id |}).
  assert (He : should_emit st1 tag_id (now o2) = Ok (DEBOUNCE_PERIOD <? delta)).
  { unfold should_emit, st1, tag_differs. cbn [last_tag last_time now o1 o2].
    rewrite String.eqb_refl. cbn [negb]. f_equal.
    destruct (Z.ltb_spec DEBOUNCE_PERIOD delta),
             (Z.ltb_spec t (t + delta - DEBOUNCE_PERIOD)); lia || reflexivity. }
  destruct (DEBOUNCE_PERIOD <? delta).
  - destruct (process_frame_emits config st1 (VFrame 2%nat) o2 data tag_id
                device_id eq_refl Hx Hc He) as [Hn2 _].
    destruct (process_frame config st1 (VFrame 2%nat) o2) as [l2 [st2|e]];
      cbn [fst snd bind ret] in *; rewrite ?dispatches_app, ?app_nil_r;
      rewrite ?dispatches_app, Hn1, Hn2; reflexivity.
  - rewrite (process_frame_suppresses config st1 (VFrame 2%nat) o2 data tag_id
               eq_refl Hx He).
    cbn [fst snd bind ret app]. rewrite dispatches_app, Hn1. reflexivity.
Qed.

(** C4, as amended: the gate emits exactly when the candidate differs from
    the last emitted identifier or more than DEBOUNCE_PERIOD (5 seconds)
    has passed since [last_seen_at]; the same identifier reported again
    after [delta] gives one dispatch when [delta] is at most 5 s, exactly
    5 s included, and two when it is more. *)
Theorem C4_debounce_gate (st : debounce_state) (tag_id : string)
    (cur_time t : Z) :
  last_time st = Some t ->
  (should_emit st tag_id cur_time = Ok true
   <-> (last_tag st <> Some tag_id \/ DEBOUNCE_PERIOD < cur_time - t))
  /\ DEBOUNCE_PERIOD = 5000000
  /\ (forall config device_id data t0 delta p1 p2,
        getitem config "tag_event_device_id" = Ok device_id ->
        extract_tag_id data = Some tag_id ->
        sink_answers p1 = true ->
        dispatches (two_reports config data t0 delta p1 p2)
        = if DEBOUNCE_PERIOD <? delta then 2%nat else 1%nat).
Proof.
  intros Ht. split; [now apply should_emit_iff|]. split; [reflexivity|].
  intros. eapply two_reports_dispatches; eassumption.
Qed.

Lemma C4_debounce_gate_witness :
  should_emit {| last_time := Some 0; last_tag := Some "ab12"%string |} "ab12" 5000001
  = Ok true.
Proof.
  apply (proj1 (C4_debounce_gate
                  {| last_time := Some 0; last_tag := Some "ab12"%string |}
                  "ab12" 5000001 0 eq_refl)).
  right. vm_compute. reflexivity.
Defined.

(** C4 as stated fails at a gap of exactly 5 seconds: the gate suppresses,
    and the two reports give one dispatch. *)
Lemma C4_exactly_five_seconds_is_suppressed :
  let st := {| last_time := Some 0; last_tag := Some "ab12"%string |} in
  ~ (should_emit st "ab12" 5000000 = Ok true
     <-> (last_tag st <> Some "ab12"%string \/ 5000000 - 0 >= DEBOUNCE_PERIOD))
  /\ should_emit st "ab12" 5000000 = Ok false
  /\ dispatches (two_reports (JObject {[ "tag_event_device_id"%string := JString "cam" ]})
                   "https://www.home-assistant.io/tag/ab12" 0 5000000 PostOk PostOk)
     = 1%nat.
Proof.
  cbv zeta. split; [|split; [reflexivity | vm_compute; reflexivity]].
  intros [_ H].
  assert (E : should_emit {| last_time := Some 0; last_tag := Some "ab12"%string |}
                "ab12" 5000000 = Ok true).
  { apply H. right. vm_compute. discriminate. }
  vm_compute in E. discriminate E.
Qed.

(** C8: the very first candidate identifier, met with no prior state,
    always emits, and the test does not touch the absent timestamp: it
    returns, it does not raise.  The first candidate finds the state line
    55 leaves. *)
Theorem C8_first_identifier_emits (tag_id : string) (cur_time : Z) :
  should_emit debounce_init tag_id cur_time = Ok true
  /\ (forall absent_or_not : option Z,
        should_emit {| last_time := absent_or_not; last_tag := None |}
          tag_id cur_time = Ok true)
  /\ (forall o s l,
        debounce (snd (detector_loop_step o s {| dpc := D_setup; debounce := l; det_log := [] |}))
        = debounce_init).
Proof. repeat split. Qed.

(** ** The detector's [try] statement *)

Lemma getitem_raises config key e :
  getitem config key = Raise e -> is_Exception e = true.
Proof.
  unfold getitem. destruct config; try (intros [= <-]; reflexivity).
  destruct (d !! key); [discriminate | intros [= <-]; reflexivity].
Qed.

Lemma should_emit_raises st tag_id cur_time e :
  should_emit st tag_id cur_time = Raise e -> is_Exception e = true.
Proof.
  unfold should_emit. destruct (tag_differs _ _); [discriminate|].
  destruct (last_time st); [discriminate | intros [= <-]; reflexivity].
Qed.

Lemma try_suite_raises config st img o e :
  errors_only o = true ->
  snd (try_suite config st img o) = Raise e -> is_Exception e = true.
Proof.
  unfold errors_only. intros [Hd Hp]%andb_prop.
  unfold try_suite, detectAndDecode, send_tag_event, emit, ret, raise, lift.
  destruct (decode o) as [data|e0]; cbn [bind fst snd app].
  - destruct (extract_tag_id data) as [tag_id|]; [|discriminate].
    destruct (should_emit st tag_id (now o)) as [[|]|e1] eqn:Ee;
      cbn [bind fst snd app]; [| discriminate |].
    + destruct (getitem config "tag_event_device_id") as [dev|e2] eqn:Eg;
        cbn [bind fst snd app].
      * destruct (post o) as [|[]]; cbn [bind fst snd app];
          try discriminate; intros [= <-]; exact Hp.
      * intros [= <-]. eapply getitem_raises, Eg.
    + intros [= <-]. eapply should_emit_raises, Ee.
  - intros [= <-]. exact Hd.
Qed.

(** With errors only, the [try] statement always completes, and an error
    that left the suite was logged and changed nothing. *)
Lemma process_frame_contains config st img o :
  errors_only o = true ->
  match try_suite config st img o with
  | (l, Ok st') => process_frame config st img o = (l, Ok st')
  | (l, Raise e) =>
      exists lvl msg,
        is_error_level lvl = true
        /\ process_frame config st img o = (l ++ [ALog lvl msg], Ok st)
  end.
Proof.
  intros Ho. pose proof (try_suite_raises config st img o) as Hr.
  unfold process_frame.
  destruct (try_suite config st img o) as [l [st'|e]]; [reflexivity|].
  specialize (Hr e Ho eq_refl).
  destruct e; try discriminate Hr; eexists _, _; refine (conj _ eq_refl);
    reflexivity.
Qed.

(** ** Runs of the whole process *)

Lemma run_invariant (P : state -> Prop) :
  (forall e st, P st -> P (step e st)) ->
  forall sched st, P st -> P (run sched st).
Proof.
  intros Hstep sched. induction sched as [|e sched IH]; intros st H; [exact H|].
  apply IH, Hstep, H.
Qed.

Lemma main_step_globals w s m :
  globals (snd (fst (main_step w s m))) = globals s.
Proof.
  unfold main_step. destruct (mpc m); repeat case_match; reflexivity.
Qed.

Lemma module_globals_frame : module_globals !! "frame"%string = None.
Proof. vm_compute. reflexivity. Qed.

(** *** The detector and the frame *)

Lemma no_frame_in_reach_step e st :
  no_frame_in_reach st -> no_frame_in_reach (step e st).
Proof.
  intros (Hg & Hl & Hpc). unfold step.
  destruct (terminated st); [now repeat split|].
  destruct e as [|o|].
  - pose proof (main_step_globals (env st) (sh st) (mt st)) as Hm.
    destruct (main_step (env st) (sh st) (mt st)) as [[w s] m].
    cbn [fst snd] in Hm. unfold no_frame_in_reach. cbn [sh dt].
    rewrite Hm. now repeat split.
  - destruct (detector_thread (sh st)); try (now repeat split).
    unfold detector_loop_step, no_frame_in_reach.
    destruct (dpc (dt st)) eqn:Epc; try (now repeat split).
    + cbn [sh dt dgoto dpc det_log set_debounce]. rewrite app_nil_r.
      repeat split; [exact Hg | exact Hl | discriminate].
    + destruct (exiting (sh st));
        cbn [sh dt dgoto dpc det_log set_thread globals]; rewrite app_nil_r;
        (repeat split; [exact Hg | exact Hl | discriminate]).
    + destruct (cv (sh st)); cbn [sh dt dgoto dpc det_log];
        [rewrite app_nil_r | rewrite Epc];
        (repeat split; [exact Hg | exact Hl | discriminate]).
    + rewrite Hg, module_globals_frame.
      cbn [sh dt dgoto dpc det_log set_thread globals]. rewrite app_nil_r.
      repeat split; [exact Hg | exact Hl | discriminate].
    + exfalso. eapply Hpc. reflexivity.
    + cbn [sh dt dgoto dpc det_log set_cv globals]. rewrite app_nil_r.
      repeat split; [exact Hg | exact Hl | discriminate].
    + cbn [sh dt]. rewrite Epc.
      repeat split; [exact Hg | exact Hl | discriminate].
    + cbn [sh dt]. rewrite Epc.
      repeat split; [exact Hg | exact Hl | discriminate].
  - unfold sigint, no_frame_in_reach.
    destruct (sigint_handler (sh st)); [now repeat split|].
    destruct (mpc (mt st)); try destruct (in_try _); now repeat split.
Qed.

(** C3, on the code: the detector never takes a frame at all.  The
    [frame] that [main] assigns is a local of [main]; [detector_loop]
    looks [frame] up among the module's globals, where it is never bound.
    So in every run, whatever the source delivers and however the threads
    interleave, no frame is ever handed to the decoder; and in the run
    below the supervisor reads frame 7 and signals it, and the detector,
    woken, dies of [NameError]. *)
Theorem C3_detector_never_takes_a_frame :
  (forall f cam sched,
     let st := run sched (init f cam) in
     frames_processed (det_log (dt st)) = []
     /\ forall img, dpc (dt st) <> D_try img)
  /\ (let st := run (replicate 10 EMain ++ replicate 4 (EDetector
                       {| decode := Decoded ""; now := 0; post := PostOk |}))
                   (init (FileParsed example_config)
                         [Connects [(true, Some 7%nat)]]) in
      main_log (mt st) = [AOpen true; ARead true (Some 7%nat); ASetCv]
      /\ frame_local (mt st) = Some 7%nat
      /\ cv (sh st) = true
      /\ dpc (dt st) = D_died (NameError "frame")
      /\ det_log (dt st) = []).
Proof.
  split.
  - intros f cam sched. cbv zeta.
    assert (H : no_frame_in_reach (run sched (init f cam))).
    { apply run_invariant; [exact no_frame_in_reach_step|].
      repeat split. discriminate. }
    destruct H as (_ & Hl & Hpc). split; assumption.
  - vm_compute. repeat split.
Qed.

(** *** Shutdown *)

Lemma raised_in_try_Exception e :
  is_Exception e = true -> raised_in_try e = M_finally (Some e).
Proof. destruct e; try discriminate; reflexivity. Qed.

Lemma VideoCapture_raises cam e cam' :
  VideoCapture cam = (Raise e, cam') -> is_Exception e = true.
Proof.
  destruct cam as [|[| |msg] cam0]; cbn; intros H; inversion H; reflexivity.
Qed.

Ltac stranded := unfold detector_stranded; cbn; repeat split; auto.

Lemma detector_stranded_step e st :
  detector_stranded st -> detector_stranded (step e st).
Proof.
  intros (He & Hh & Ht & Hd & Hc & Hp).
  unfold step, terminated. rewrite Ht. destruct e as [|o|].
  - unfold main_step.
    destruct (mpc (mt st)) eqn:Epc; try discriminate Hp; rewrite ?He, ?Ht.
    + stranded.
    + destruct (getitem (config (sh st)) "camera_rtsp_stream") as [a|x] eqn:Eg.
      * destruct (VideoCapture (camera (env st))) as [[c|x] cam'] eqn:Ev;
          [|rewrite (raised_in_try_Exception _ (VideoCapture_raises _ _ _ Ev))];
          stranded.
      * rewrite (raised_in_try_Exception _ (getitem_raises _ _ _ Eg)). stranded.
    + destruct (stream (mt st)) as [c|]; [destruct (opened c)|]; stranded.
    + stranded.
    + destruct (stream (mt st)) as [c|]; [rewrite andb_false_r|]; stranded.
    + destruct (stream (mt st)) as [c|]; stranded.
    + stranded.
    + destruct (stream (mt st)) as [c|];
        [destruct (gui (env st)); [destruct pending_exn|]|]; stranded.
    + stranded. now rewrite Epc.
    + stranded. now rewrite Epc.
    + stranded. now rewrite Epc.
  - unfold detector_loop_step. rewrite Hd, Hc. stranded.
  - unfold sigint. rewrite Hh. stranded.
Qed.

Lemma detector_stranded_forever st sched :
  detector_stranded st ->
  terminated (run sched st) = None
  /\ dpc (dt (run sched st)) = D_wait
  /\ cv (sh (run sched st)) = false.
Proof.
  intros H.
  assert (H' : detector_stranded (run sched st))
    by (apply run_invariant; [exact detector_stranded_step | exact H]).
  destruct H' as (_ & _ & Ht & Hd & Hc & _).
  unfold terminated. rewrite Ht. auto.
Qed.

Lemma main_died_forever e st sched :
  mpc (mt st) = M_died e -> mpc (mt (run sched st)) = M_died e.
Proof.
  apply (run_invariant (fun st => mpc (mt st) = M_died e)).
  clear. intros ev st H. unfold step.
  destruct (terminated st); [exact H|]. destruct ev as [|o|].
  - unfold main_step. rewrite H. exact H.
  - destruct (detector_thread (sh st)); [exact H | | exact H].
    destruct (detector_loop_step o (sh st) (dt st)). exact H.
  - unfold sigint. destruct (sigint_handler (sh st)); [exact H|].
    rewrite H. exact H.
Qed.

(** C1, on the code: the handler installed at line 86 sets the shutdown
    signal and nothing else; it does not wake the waiters of [cv] (the
    [except KeyboardInterrupt] clause, which no run reaches once the
    handler is in place, would do both).  With a source that never
    connects, the detector waits in [cv.wait()] when the interrupt arrives:
    it stays there, and the process does not terminate, whatever happens
    next and however many further interrupts arrive. *)
Theorem C1_interrupt_leaves_the_detector_waiting :
  (forall s m,
     sigint (set_handler true s) m = (set_exiting true (set_handler true s), m)
     /\ cv (fst (sigint (set_handler true s) m)) = cv s)
  /\ (forall w s m,
       let s' := snd (fst (main_step w s (goto M_except [] m))) in
       exiting s' = true /\ cv s' = true)
  /\ (let o := {| decode := Decoded ""; now := 0; post := PostOk |} in
      let st := run (replicate 4 EMain ++ replicate 2 (EDetector o)
                     ++ replicate 4 EMain ++ [ESigint])
                  (init (FileParsed example_config) []) in
      exiting (sh st) = true
      /\ cv (sh st) = false
      /\ dpc (dt st) = D_wait
      /\ main_log (mt st)
         = [AOpen false; ALog ERROR "Failed to open camera stream."; ASleep 5]
      /\ forall sched,
           terminated (run sched st) = None
           /\ dpc (dt (run sched st)) = D_wait
           /\ cv (sh (run sched st)) = false).
Proof.
  split; [intros s m; split; reflexivity|].
  split; [intros w s m; split; reflexivity|].
  cbv zeta.
  split; [vm_compute; reflexivity|]. split; [vm_compute; reflexivity|].
  split; [vm_compute; reflexivity|]. split; [vm_compute; reflexivity|].
  intros sched. apply detector_stranded_forever.
  vm_compute. repeat split.
Qed.

(** C9, on the code: an interrupt that arrives once the handler is
    installed and before the first connection attempt ends the loop of
    [main] before [stream] is bound, so [stream.release()] in the
    [finally] clause raises [UnboundLocalError] and [main] never returns
    0: whatever the source, the process then either keeps running or ends
    with the traceback of that exception; and if the detector already
    waits in [cv.wait()] it never ends. *)
Theorem C9_interrupt_before_first_connection :
  (forall cam,
     let st := run (replicate 4 EMain ++ [ESigint; EMain; EMain])
                 (init (FileParsed example_config) cam) in
     mpc (mt st) = M_died (UnboundLocalError "stream")
     /\ main_log (mt st) = []
     /\ forall sched,
          terminated (run sched st) = None
          \/ terminated (run sched st) = Some (Died (UnboundLocalError "stream")))
  /\ (forall cam,
       let o := {| decode := Decoded ""; now := 0; post := PostOk |} in
       let st := run (replicate 4 EMain ++ replicate 2 (EDetector o)
                      ++ [ESigint; EMain; EMain])
                   (init (FileParsed example_config) cam) in
       mpc (mt st) = M_died (UnboundLocalError "stream")
       /\ forall sched, terminated (run sched st) = None).
Proof.
  split.
  - intros cam. cbv zeta. split; [reflexivity|]. split; [reflexivity|].
    intros sched.
    set (st := run _ (init _ cam)).
    pose proof (main_died_forever (UnboundLocalError "stream") st sched eq_refl) as H.
    unfold terminated. rewrite H.
    destruct (detector_thread (sh (run sched st))); auto.
  - intros cam. cbv zeta. split; [reflexivity|].
    intros sched. apply detector_stranded_forever. repeat split.
Qed.

(** *** Startup *)

Lemma run_terminated sched st t :
  terminated st = Some t -> run sched st = st.
Proof.
  intros H. induction sched as [|e sched IH]; [reflexivity|].
  cbn [run]. unfold step. rewrite H. exact IH.
Qed.

Lemma load_config_unusable f :
  unusable f = true -> exists l, load_config f = (l, Raise (SystemExit 1)).
Proof. destruct f; try discriminate; intros _; eexists; reflexivity. Qed.

Section UnusableConfig.
Variable f : config_file.
Hypothesis Hf : unusable f = true.

Lemma not_started_step e st : not_started f st -> not_started f (step e st).
Proof.
  intros (Ht & Hh & Hfile & Hpc). unfold step, terminated. rewrite Ht.
  destruct Hpc as [Hpc|[Hpc|Hpc]]; rewrite Hpc;
    try (repeat split; auto; fail).
  destruct e as [|o|].
  - unfold main_step. rewrite Hpc, Hfile.
    destruct (load_config_unusable f Hf) as [l ->].
    repeat split; cbn; auto.
  - repeat split; auto.
  - unfold sigint. rewrite Hh, Hpc. repeat split; cbn; auto.
Qed.

Lemma unusable_exits cam :
  terminated (step EMain (init f cam)) = Some (Exited 1).
Proof.
  unfold step, main_step. cbn [terminated init sh mt env detector_thread mpc file].
  destruct (load_config_unusable f Hf) as [l ->]. reflexivity.
Qed.
End UnusableConfig.

(** C6, as amended: when the configuration file is missing or does not
    parse, startup is fatal: the first step of [main] ends the process
    with status 1, and in no run is the detector thread started. *)
Theorem C6_unusable_config_file_is_fatal (f : config_file)
    (cam : list attempt) (sched : list event) :
  unusable f = true ->
  terminated (run (EMain :: sched) (init f cam)) = Some (Exited 1)
  /\ detector_thread (sh (run (EMain :: sched) (init f cam))) = NotStarted
  /\ detector_thread (sh (run sched (init f cam))) = NotStarted.
Proof.
  intros Hf.
  assert (Hi : not_started f (init f cam)) by (repeat split; auto).
  pose proof (unusable_exits f Hf cam) as Hx.
  cbn [run]. rewrite (run_terminated sched _ _ Hx).
  split; [exact Hx|]. split.
  - apply (not_started_step f Hf EMain), Hi.
  - apply (run_invariant (not_started f) (not_started_step f Hf) sched), Hi.
Qed.

Lemma C6_unusable_config_file_is_fatal_witness :
  terminated (run [EMain; ESigint; EMain] (init FileMissing [Unreachable]))
  = Some (Exited 1).
Proof.
  exact (proj1 (C6_unusable_config_file_is_fatal FileMissing [Unreachable]
                  [ESigint; EMain] eq_refl)).
Defined.

(** C6 as stated fails for a configuration that parses but lacks the
    recognized options: startup goes on, the detector thread is started
    and the process has not exited; [main] then dies at line 112, after
    the thread was started. *)
Lemma C6_missing_option_is_not_fatal_at_startup :
  let cfg := JObject ∅ in
  let st := run (replicate 3 EMain) (init (FileParsed cfg) []) in
  forallb (has_option cfg) recognized_options = false
  /\ detector_thread (sh st) = Running
  /\ terminated st = None
  /\ mpc (mt (run (replicate 4 EMain) st)) = M_died (UnboundLocalError "stream").
Proof. vm_compute. repeat split. Qed.

(** *** Reconnection *)

Lemma main_step_log w s m :
  exists l, main_log (snd (main_step w s m)) = main_log m ++ l.
Proof.
  unfold main_step.
  destruct (mpc m); repeat case_match; cbn [snd goto main_log set_stream
    set_read set_frame];
    first [ eexists; reflexivity | exists []; now rewrite app_nil_r ].
Qed.

Lemma sigint_log s m :
  exists l, main_log (snd (sigint s m)) = main_log m ++ l.
Proof.
  unfold sigint. destruct (sigint_handler s);
    [exists []; now rewrite app_nil_r|].
  destruct (mpc m); try destruct (in_try _); cbn [snd goto main_log];
    first [ eexists; reflexivity | exists []; now rewrite app_nil_r ].
Qed.

Lemma main_log_grows e st :
  main_log (mt st) `prefix_of` main_log (mt (step e st)).
Proof.
  unfold step. destruct (terminated st); [reflexivity|].
  destruct e as [|o|].
  - destruct (main_step_log (env st) (sh st) (mt st)) as [l Hl].
    destruct (main_step (env st) (sh st) (mt st)) as [[w s] m].
    cbn [snd mt] in *. rewrite Hl. now apply prefix_app_r.
  - destruct (detector_thread (sh st)); try reflexivity.
    destruct (detector_loop_step o (sh st) (dt st)). reflexivity.
  - destruct (sigint_log (sh st) (mt st)) as [l Hl].
    destruct (sigint (sh st) (mt st)) as [s m].
    cbn [snd mt] in *. rewrite Hl. now apply prefix_app_r.
Qed.

Lemma retry_trace_S k : retry_trace (S k) = retry_trace k ++ failed_attempt.
Proof.
  unfold retry_trace. induction k as [|k IH]; [reflexivity|].
  change (replicate (S (S k)) failed_attempt)
    with (failed_attempt :: replicate (S k) failed_attempt).
  cbn [concat]. rewrite IH at 1.
  change (replicate (S k) failed_attempt)
    with (failed_attempt :: replicate k failed_attempt).
  cbn [concat]. now rewrite app_assoc.
Qed.

Lemma retry_trace_prefix j k :
  (j <= k)%nat -> retry_trace j `prefix_of` retry_trace k.
Proof.
  induction 1 as [|k _ IH]; [reflexivity|].
  rewrite retry_trace_S. now apply prefix_app_r.
Qed.

Lemma opens_retry_trace k : opens (retry_trace k) = k.
Proof.
  induction k as [|k IH]; [reflexivity|].
  rewrite retry_trace_S. unfold opens in *.
  rewrite List.filter_app, length_app, IH. cbn. lia.
Qed.

Lemma publishes_retry_trace k : publishes (retry_trace k) = 0%nat.
Proof.
  induction k as [|k IH]; [reflexivity|].
  rewrite retry_trace_S. unfold publishes in *.
  rewrite List.filter_app, length_app, IH. reflexivity.
Qed.

Section Reconnection.
Variable N : nat.
Variable reads : list (bool * option frame).
Variable rest : list attempt.
Variable cfg addr : json.
Hypothesis Hcfg : getitem cfg "camera_rtsp_stream" = Ok addr.

Lemma connected_step e st : connected N st -> connected N (step e st).
Proof.
  unfold connected. intros H. etransitivity; [exact H|]. apply main_log_grows.
Qed.

Lemma connecting_init :
  connecting N reads rest cfg (init (FileParsed cfg) (source reads rest N)) N.
Proof.
  split; cbn; auto.
  - apply Nat.eqb_refl.
  - intros [H|H]; discriminate H.
Qed.

Lemma connecting_terminated st u : connecting N reads rest cfg st u -> terminated st = None.
Proof.
  intros [Hpc _ _ _ _ _ _]. unfold terminated.
  destruct (detector_thread (sh st)); [|reflexivity|];
    destruct (mpc (mt st)); try reflexivity; discriminate Hpc.
Qed.

(** The detector's steps do not touch what the supervisor sees. *)
Lemma connecting_detector o st u :
  connecting N reads rest cfg st u ->
  connecting N reads rest cfg (step (EDetector o) st) u
  /\ mpc (mt (step (EDetector o) st)) = mpc (mt st).
Proof.
  intros H. pose proof (connecting_terminated _ _ H) as Ht.
  unfold step. rewrite Ht.
  destruct (detector_thread (sh st)); try (split; [exact H | reflexivity]).
  assert (Hd : exiting (fst (detector_loop_step o (sh st) (dt st))) = exiting (sh st)
               /\ config (fst (detector_loop_step o (sh st) (dt st))) = config (sh st)).
  { unfold detector_loop_step.
    destruct (dpc (dt st)); repeat case_match; split; cbn; congruence. }
  destruct (detector_loop_step o (sh st) (dt st)) as [s d]. cbn [fst] in Hd.
  destruct Hd as [He Hc]. destruct H as [H1 H2 H3 H4 H5 H6 H7].
  split; [|reflexivity].
  split; cbn [sh mt env]; rewrite ?He, ?Hc; assumption.
Qed.

Ltac connecting_fields :=
  split; cbn [sh mt env mpc main_log camera file config exiting stream goto
              set_stream set_frame set_config set_cv set_exiting set_thread
              set_handler valid_pc expected_log];
  try assumption; try reflexivity; try (right; reflexivity);
  try (right; left; reflexivity);
  try (right; right; assumption); try (right; right; reflexivity);
  try (right; assumption);
  try (intros [?|?]; discriminate); try discriminate.

Lemma connecting_main st u :
  connecting N reads rest cfg st u ->
  (exists u', connecting N reads rest cfg (step EMain st) u'
              /\ S (remaining (mpc (mt (step EMain st))) u')
                 = remaining (mpc (mt st)) u)
  \/ (connected N (step EMain st) /\ remaining (mpc (mt st)) u = 1%nat).
Proof.
  intros H. pose proof (connecting_terminated _ _ H) as Ht.
  unfold step. rewrite Ht. destruct H as [Hpc Hex Hcam Hlog Hfile Hconf Hstr].
  unfold main_step.
  destruct (mpc (mt st)) eqn:Epc; try discriminate Hpc;
    cbn [valid_pc expected_log] in *.
  - (* line 76 *)
    rewrite (Hfile eq_refl). cbn [load_config ret].
    left. exists u. split; [|cbn; lia].
    connecting_fields. now rewrite Hlog.
  - (* lines 77 to 79 *)
    left. exists u. split; [|cbn; lia].
    destruct Hconf as [?|Hconf]; [discriminate|].
    connecting_fields. now rewrite Hlog.
  - (* lines 82, 83 *)
    left. exists u. split; [|cbn; lia].
    destruct Hconf as [?|Hconf]; [discriminate|].
    destruct Hex as [?|[?|Hex]]; try discriminate.
    connecting_fields. now rewrite Hlog.
  - (* line 86 *)
    left. exists u. split; [|cbn; lia].
    destruct Hconf as [?|Hconf]; [discriminate|].
    destruct Hex as [?|[?|Hex]]; try discriminate.
    connecting_fields.
    + apply Nat.eqb_eq in Hpc. apply Nat.leb_le. lia.
    + rewrite Hlog. apply Nat.eqb_eq in Hpc. subst u.
      now rewrite Nat.sub_diag.
  - (* line 89 *)
    destruct Hconf as [?|Hconf]; [discriminate|].
    destruct Hex as [?|[?|Hex]]; try discriminate.
    rewrite Hex. left. exists u. split; [|cbn; lia].
    connecting_fields. now rewrite Hlog, app_nil_r.
  - (* line 90 *)
    destruct Hconf as [?|Hconf]; [discriminate|].
    destruct Hex as [?|[?|Hex]]; try discriminate.
    rewrite Hconf, Hcfg, Hcam. destruct u as [|u'].
    + right. split; [|reflexivity].
      unfold connected. cbn. rewrite Hlog, Nat.sub_0_r. reflexivity.
    + left. exists u'. split; [|cbn; lia].
      apply Nat.leb_le in Hpc.
      connecting_fields.
      * apply Nat.ltb_lt. lia.
      * cbn. rewrite Hlog. now replace (N - u' - 1)%nat with (N - S u')%nat by lia.
      * intros _. cbn. eexists. split; reflexivity.
  - (* line 91 *)
    destruct Hconf as [?|Hconf]; [discriminate|].
    destruct Hex as [?|[?|Hex]]; try discriminate.
    destruct (Hstr (or_introl eq_refl)) as (c & Hc & Hop).
    rewrite Hc, Hop. left. exists u. split; [|cbn; lia].
    connecting_fields.
    + now rewrite Hlog, app_nil_r.
    + intros _. exists c. split; assumption.
  - (* lines 92 to 94 *)
    destruct Hconf as [?|Hconf]; [discriminate|].
    destruct Hex as [?|[?|Hex]]; try discriminate.
    left. exists u. split; [|cbn; lia].
    apply Nat.ltb_lt in Hpc.
    connecting_fields.
    + apply Nat.leb_le. lia.
    + rewrite Hlog. remember (N - u - 1)%nat as k eqn:Ek.
      replace (N - u)%nat with (S k) by lia.
      rewrite retry_trace_S. unfold failed_attempt. now rewrite <- app_assoc.
Qed.

Lemma connecting_remaining st u :
  connecting N reads rest cfg st u -> (1 <= remaining (mpc (mt st)) u)%nat.
Proof.
  intros [Hpc _ _ _ _ _ _].
  destruct (mpc (mt st)); try discriminate Hpc; cbn; lia.
Qed.

Lemma connecting_log_prefix st u :
  connecting N reads rest cfg st u -> main_log (mt st) `prefix_of` connect_trace N.
Proof.
  intros [Hpc _ _ Hlog _ _ _]. rewrite Hlog. unfold connect_trace.
  destruct (mpc (mt st)); try discriminate Hpc;
    cbn [valid_pc expected_log] in *; try apply prefix_nil.
  - apply prefix_app_r, retry_trace_prefix. lia.
  - apply prefix_app_r, retry_trace_prefix. lia.
  - apply Nat.ltb_lt in Hpc. apply prefix_app_r.
    transitivity (retry_trace (S (N - u - 1)));
      [|apply retry_trace_prefix; lia].
    rewrite retry_trace_S. apply prefix_app, prefix_cons, prefix_nil.
  - apply Nat.ltb_lt in Hpc. apply prefix_app_r.
    transitivity (retry_trace (S (N - u - 1)));
      [|apply retry_trace_prefix; lia].
    rewrite retry_trace_S. apply prefix_app, prefix_cons, prefix_nil.
Qed.

Lemma connecting_run sched : forall st u,
  connecting N reads rest cfg st u -> no_sigint sched = true ->
  (exists u', connecting N reads rest cfg (run sched st) u'
              /\ (remaining (mpc (mt (run sched st))) u' + main_steps sched
                  = remaining (mpc (mt st)) u)%nat)
  \/ (connected N (run sched st)
      /\ (remaining (mpc (mt st)) u <= main_steps sched)%nat).
Proof.
  induction sched as [|e sched IH]; intros st u H Hs.
  - left. exists u. split; [exact H|]. cbn. lia.
  - cbn [run]. destruct e as [|o|]; [| |discriminate Hs];
      cbn [no_sigint forallb andb] in Hs; fold (no_sigint sched) in Hs.
    + change (main_steps (EMain :: sched)) with (S (main_steps sched)).
      destruct (connecting_main st u H) as [(u' & H' & Hr)|[Hc Hr]].
      * destruct (IH _ _ H' Hs) as [(u'' & H'' & Hr')|[Hc Hr']].
        -- left. exists u''. split; [exact H''|]. lia.
        -- right. split; [exact Hc|]. lia.
      * right. split; [|lia].
        apply (run_invariant (connected N) connected_step), Hc.
    + change (main_steps (EDetector o :: sched)) with (main_steps sched).
      destruct (connecting_detector o st u H) as [H' Hpc].
      rewrite <- Hpc. apply IH; assumption.
Qed.
End Reconnection.

(** C7: when opening the source fails [N] times in a row and then
    succeeds, and no interrupt arrives meanwhile, the log of the
    supervisor starts with [connect_trace N]: [N] times a failed open, its
    error record and a 5-second sleep, then the open that succeeds.  That
    is [N + 1] opens, each two consecutive ones separated by the 5-second
    sleep, and no [cv.set()] before the successful open.  At every moment
    of every interleaving the log is a prefix of that trace or extends
    it, and it extends it once the main thread has made [4 * N + 6] steps. *)
Theorem C7_reconnection (N : nat) (reads : list (bool * option frame))
    (rest : list attempt) (cfg addr : json) (sched : list event) :
  getitem cfg "camera_rtsp_stream" = Ok addr ->
  no_sigint sched = true ->
  let log := main_log (mt (run sched
               (init (FileParsed cfg)
                     (replicate N Unreachable ++ Connects reads :: rest)))) in
  (log `prefix_of` connect_trace N \/ connect_trace N `prefix_of` log)
  /\ ((4 * N + 6 <= main_steps sched)%nat -> connect_trace N `prefix_of` log)
  /\ opens (connect_trace N) = S N
  /\ publishes (connect_trace N) = 0%nat
  /\ connect_trace N
     = concat (replicate N [AOpen false;
                            ALog ERROR "Failed to open camera stream.";
                            ASleep 5])
       ++ [AOpen true].
Proof.
  intros Hcfg Hs. cbv zeta.
  pose proof (connecting_run N reads rest cfg addr Hcfg sched _ _
                (connecting_init N reads rest cfg) Hs) as H.
  fold (source reads rest N).
  split; [|split; [|split; [|split]]].
  - destruct H as [(u' & H' & _)|[Hc _]].
    + left. eapply connecting_log_prefix, H'.
    + right. exact Hc.
  - intros Hn. destruct H as [(u' & H' & Hr)|[Hc _]]; [|exact Hc].
    pose proof H' as H1. eapply connecting_remaining in H1.
    cbn [init mt mpc remaining] in Hr. lia.
  - unfold connect_trace, opens. rewrite List.filter_app, length_app.
    fold (opens (retry_trace N)). rewrite opens_retry_trace. cbn. lia.
  - unfold connect_trace, publishes. rewrite List.filter_app, length_app.
    fold (publishes (retry_trace N)). now rewrite publishes_retry_trace.
  - reflexivity.
Qed.

Lemma C7_reconnection_witness :
  connect_trace 2
  `prefix_of`
  main_log (mt (run (replicate 14 EMain ++ [EDetector
                       {| decode := Decoded ""; now := 0; post := PostOk |}])
                  (init (FileParsed example_config)
                        (replicate 2 Unreachable
                         ++ Connects [(true, Some 7%nat)] :: [])))).
Proof.
  refine (proj1 (proj2 (C7_reconnection 2 [(true, Some 7%nat)] [] example_config
                          (JString "rtsp://camera.local/stream") _ _ _)) _).
  - vm_compute. reflexivity.
  - reflexivity.
  - vm_compute. lia.
Defined.


(** * Further properties of the code *)

(** ** The pattern *)

(** X2: the bracketed set [[0-9a-fA-F-]] holds exactly the 23 characters
    [0] to [9], [a] to [f], [A] to [F] and the hyphen. *)
Theorem X2_tag_characters (c : ascii) : is_tag_char c = in_alphabet c.
Proof.
  destruct c as [[] [] [] [] [] [] [] []]; reflexivity.
Qed.

(** ** The detector's work on frames *)

Lemma fst_bind {A B} (m : M A) (k : A -> M B) a :
  snd m = Ok a -> fst (bind m k) = fst m ++ fst (k a).
Proof. destruct m as [l [x|e]]; cbn; [intros [= ->]; reflexivity | discriminate]. Qed.

Lemma snd_bind {A B} (m : M A) (k : A -> M B) a :
  snd m = Ok a -> snd (bind m k) = snd (k a).
Proof. destruct m as [l [x|e]]; cbn; [intros [= ->]; reflexivity | discriminate]. Qed.

Lemma bind_raises {A B} (m : M A) (k : A -> M B) e :
  snd m = Raise e -> bind m k = (fst m, Raise e).
Proof. destruct m as [l [x|e']]; cbn; [discriminate | intros [= ->]; reflexivity]. Qed.

(** One [try] statement calls the sink at most once, and leaves the
    debounce variables as they were or sets both. *)
Lemma process_frame_effect config st img o :
  (dispatches (fst (process_frame config st img o)) <= 1)%nat
  /\ forall st', snd (process_frame config st img o) = Ok st' ->
       st' = st
       \/ exists tag_id, st' = {| last_time := Some (now o);
                                  last_tag := Some tag_id |}.
Proof.
  unfold process_frame, try_suite, detectAndDecode, send_tag_event, emit, ret,
    raise, lift.
  destruct (decode o) as [data|e0]; cbn [bind fst snd app].
  - destruct (extract_tag_id data) as [tag_id|];
      [|split; [cbn; lia | intros st' [= <-]; now left]].
    destruct (should_emit st tag_id (now o)) as [[|]|e1];
      cbn [bind fst snd app].
    + destruct (getitem config "tag_event_device_id") as [dev|e2];
        cbn [bind fst snd app].
      * destruct (post o) as [|e3]; [|destruct e3]; cbn;
          (split; [lia | intros st' [= <-]; eauto]).
      * destruct e2; cbn; (split; [lia | intros st' H; inversion H; now left]).
    + split; [cbn; lia | intros st' [= <-]; now left].
    + destruct e1; cbn; (split; [lia | intros st' H; inversion H; now left]).
  - destruct e0; cbn; (split; [lia | intros st' H; inversion H; now left]).
Qed.

Lemma should_emit_paired st tag_id cur_time :
  paired st = true -> exists b, should_emit st tag_id cur_time = Ok b.
Proof.
  unfold paired, should_emit, tag_differs.
  destruct (last_time st), (last_tag st); try discriminate; intros _.
  - destruct (negb _); eexists; reflexivity.
  - eexists; reflexivity.
Qed.

(** X3: the debounce variables stay paired.  After any series of frames,
    whatever the decoder, the clock and the sink answered, [last_time] and
    [last_tag] are both unset or both set, so the comparison of line 64
    never meets an absent timestamp: the test returns, it does not raise
    [TypeError]. *)
Theorem X3_debounce_variables_stay_paired (config : json)
    (fs : list (value * det_oracle)) (st st' : debounce_state) :
  paired st = true ->
  snd (process_frames config st fs) = Ok st' ->
  paired st' = true
  /\ forall tag_id cur_time, exists b, should_emit st' tag_id cur_time = Ok b.
Proof.
  revert st. induction fs as [|[img o] fs IH]; intros st Hp H.
  - cbn in H. inversion H; subst st'. split; [exact Hp|].
    intros. now apply should_emit_paired.
  - cbn [process_frames] in H.
    destruct (process_frame_effect config st img o) as [_ He].
    destruct (snd (process_frame config st img o)) as [st1|e] eqn:E.
    + rewrite (snd_bind _ _ _ E) in H.
      apply (IH st1); [|exact H].
      destruct (He st1 eq_refl) as [->|[tag_id ->]]; [exact Hp | reflexivity].
    + rewrite (bind_raises _ _ _ E) in H. discriminate H.
Qed.

Lemma X3_debounce_variables_stay_paired_witness :
  exists b,
    should_emit
      {| last_time := Some 10; last_tag := Some "ab12"%string |} "ab12" 20
    = Ok b.
Proof.
  refine (proj2 (X3_debounce_variables_stay_paired example_config
            [(VFrame 1%nat,
              {| decode := Decoded "https://www.home-assistant.io/tag/ab12";
                 now := 10; post := PostRaises (RequestException "503") |})]
            debounce_init
            {| last_time := Some 10; last_tag := Some "ab12"%string |}
            eq_refl _) "ab12"%string 20).
  vm_compute. reflexivity.
Defined.

(** X4: the sink is called at most once per frame: a failed call is never
    repeated. *)
Theorem X4_at_most_one_dispatch_per_frame (config : json)
    (fs : list (value * det_oracle)) (st : debounce_state) :
  (dispatches (fst (process_frames config st fs)) <= length fs)%nat.
Proof.
  revert st. induction fs as [|[img o] fs IH]; intros st; [cbn; lia|].
  cbn [process_frames length].
  destruct (process_frame_effect config st img o) as [Hd _].
  destruct (snd (process_frame config st img o)) as [st1|e] eqn:E.
  - rewrite (fst_bind _ _ _ E), dispatches_app. specialize (IH st1). lia.
  - rewrite (bind_raises _ _ _ E). cbn [fst]. lia.
Qed.

Lemma should_emit_differs st tag_id cur_time :
  tag_differs (last_tag st) tag_id = true ->
  should_emit st tag_id cur_time = Ok true.
Proof. unfold should_emit. now intros ->. Qed.

(** X5: a different identifier always goes out, whatever the timing.  When
    every frame of a series carries an identifier other than the one of the
    frame before, and the sink answers, each frame is dispatched: as many
    sink calls as frames (X, Y, X with no time in between gives three). *)
Theorem X5_different_identifiers_all_dispatch (config device_id : json)
    (fs : list (value * det_oracle)) (st : debounce_state) :
  getitem config "tag_event_device_id" = Ok device_id ->
  alternating (last_tag st) fs = true ->
  dispatches (fst (process_frames config st fs)) = length fs.
Proof.
  intros Hc. revert st. induction fs as [|[img o] fs IH]; intros st Ha;
    [reflexivity|].
  cbn [alternating] in Ha.
  destruct (decode o) as [data|] eqn:Ed; [|discriminate Ha].
  destruct (extract_tag_id data) as [tag_id|] eqn:Ex; [|discriminate Ha].
  apply andb_prop in Ha as [[Hd Hs]%andb_prop Ha].
  destruct (process_frame_emits config st img o data tag_id device_id Ed Ex Hc
              (should_emit_differs _ _ _ Hd)) as [Hn Hst].
  specialize (Hst Hs). cbn [process_frames length].
  rewrite (fst_bind _ _ _ Hst), dispatches_app, Hn.
  f_equal. apply IH. exact Ha.
Qed.

Lemma X5_different_identifiers_all_dispatch_witness :
  let report tag :=
    (VFrame 0%nat,
     {| decode := Decoded ("https://www.home-assistant.io/tag/" +:+ tag);
        now := 0; post := PostOk |}) in
  dispatches (fst (process_frames example_config debounce_init
                     [report "aa"%string; report "bb"%string; report "aa"%string]))
  = 3%nat.
Proof.
  cbv zeta.
  refine (X5_different_identifiers_all_dispatch example_config
            (JString "front-door") _ debounce_init _ _);
    vm_compute; reflexivity.
Defined.

Lemma process_frame_sink_unexpected config st img o data tag_id device_id e :
  decode o = Decoded data ->
  extract_tag_id data = Some tag_id ->
  getitem config "tag_event_device_id" = Ok device_id ->
  should_emit st tag_id (now o) = Ok true ->
  post o = PostRaises e ->
  sink_answers (PostRaises e) = false ->
  is_Exception e = true ->
  dispatches (fst (process_frame config st img o)) = 1%nat
  /\ snd (process_frame config st img o) = Ok st.
Proof.
  intros Hd Hx Hc He Hp Hs Hexn.
  unfold process_frame, try_suite, detectAndDecode, send_tag_event, emit, ret,
    raise, lift.
  rewrite Hd. cbn [bind fst snd app]. rewrite Hx, He. cbn [bind fst snd app].
  rewrite Hc, Hp. cbn [bind fst snd app].
  destruct e; try discriminate Hs; try discriminate Hexn; cbn; split; reflexivity.
Qed.

(** X6: when the sink call raises something other than a
    [RequestException], line 66 is skipped and the debounce variables keep
    their old values: the same identifier in the next frame is sent again,
    however short the gap. *)
Theorem X6_unexpected_sink_error_is_not_debounced (config device_id : json)
    (data tag_id : string) (t delta : Z) (e : pyexn) (p2 : post_outcome) :
  getitem config "tag_event_device_id" = Ok device_id ->
  extract_tag_id data = Some tag_id ->
  sink_answers (PostRaises e) = false ->
  is_Exception e = true ->
  dispatches (two_reports config data t delta (PostRaises e) p2) = 2%nat.
Proof.
  intros Hc Hx Hs Hexn. unfold two_reports. cbn [process_frames].
  set (o1 := {| decode := Decoded data; now := t; post := PostRaises e |}).
  set (o2 := {| decode := Decoded data; now := t + delta; post := p2 |}).
  destruct (process_frame_sink_unexpected config debounce_init (VFrame 1%nat)
              o1 data tag_id device_id e eq_refl Hx Hc eq_refl eq_refl Hs Hexn)
    as [Hn1 Hs1].
  rewrite (fst_bind _ _ _ Hs1), dispatches_app, Hn1.
  destruct (process_frame_emits config debounce_init (VFrame 2%nat) o2 data
              tag_id device_id eq_refl Hx Hc eq_refl) as [Hn2 _].
  destruct (snd (process_frame config debounce_init (VFrame 2%nat) o2))
    as [st2|e2] eqn:E2.
  - rewrite (fst_bind _ _ _ E2), dispatches_app, Hn2. reflexivity.
  - rewrite (bind_raises _ _ _ E2). cbn [fst]. rewrite Hn2. reflexivity.
Qed.

Lemma X6_unexpected_sink_error_is_not_debounced_witness :
  dispatches (two_reports example_config
                "https://www.home-assistant.io/tag/ab12" 0 1
                (PostRaises (TypeError "Object of type bytes is not JSON serializable"))
                PostOk)
  = 2%nat.
Proof.
  refine (X6_unexpected_sink_error_is_not_debounced example_config
            (JString "front-door") _ "ab12" 0 1 _ PostOk _ _ _ _);
    vm_compute; reflexivity.
Defined.

Lemma process_frame_without_device_id config st img o e :
  getitem config "tag_event_device_id" = Raise e ->
  dispatches (fst (process_frame config st img o)) = 0%nat
  /\ forall st', snd (process_frame config st img o) = Ok st' -> st' = st.
Proof.
  intros Hc. pose proof (getitem_raises _ _ _ Hc) as Hexn.
  unfold process_frame, try_suite, detectAndDecode, send_tag_event, emit, ret,
    raise, lift.
  destruct (decode o) as [data|e0]; cbn [bind fst snd app].
  - destruct (extract_tag_id data) as [tag_id|];
      [|split; [reflexivity | now intros st' [= <-]]].
    destruct (should_emit st tag_id (now o)) as [[|]|e1];
      cbn [bind fst snd app].
    + rewrite Hc. cbn [bind fst snd app].
      destruct e; try discriminate Hexn; cbn;
        (split; [reflexivity | now intros st' [= <-]]).
    + split; [reflexivity | now intros st' [= <-]].
    + destruct e1; cbn;
        (split; [reflexivity | intros st' H; inversion H; reflexivity]).
  - destruct e0; cbn;
      (split; [reflexivity | intros st' H; inversion H; reflexivity]).
Qed.

(** X7: without a usable [tag_event_device_id] in the configuration
    nothing is ever sent.  [config['tag_event_device_id']] raises inside the
    [try] on every frame that should emit; the sink is never called and the
    debounce variables never change, whatever the frames carry. *)
Theorem X7_missing_device_id_sends_nothing (config : json) (e : pyexn)
    (fs : list (value * det_oracle)) (st : debounce_state) :
  getitem config "tag_event_device_id" = Raise e ->
  dispatches (fst (process_frames config st fs)) = 0%nat
  /\ forall st', snd (process_frames config st fs) = Ok st' -> st' = st.
Proof.
  intros Hc. induction fs as [|[img o] fs [IHn IHs]].
  - split; [reflexivity | now intros st' [= <-]].
  - cbn [process_frames].
    destruct (process_frame_without_device_id config st img o e Hc) as [Hn Hs].
    destruct (snd (process_frame config st img o)) as [st1|e1] eqn:E.
    + pose proof (Hs st1 eq_refl) as ->.
      rewrite (fst_bind _ _ _ E), (snd_bind _ _ _ E), dispatches_app, Hn, IHn.
      split; [reflexivity | exact IHs].
    + rewrite (bind_raises _ _ _ E). cbn [fst snd].
      split; [exact Hn | discriminate].
Qed.

Lemma X7_missing_device_id_sends_nothing_witness :
  dispatches (fst (process_frames
    (JObject {[ "camera_rtsp_stream"%string := JString "rtsp://camera.local/stream" ]})
    debounce_init
    [(VFrame 1%nat,
      {| decode := Decoded "https://www.home-assistant.io/tag/ab12";
         now := 0; post := PostOk |})]))
  = 0%nat.
Proof.
  refine (proj1 (X7_missing_device_id_sends_nothing _
                   (KeyError "tag_event_device_id") _ debounce_init _)).
  vm_compute. reflexivity.
Defined.

(** ** The supervisor *)

Lemma main_step_handler w s m :
  sigint_handler s = true ->
  sigint_handler (snd (fst (main_step w s m))) = true.
Proof.
  intros H. unfold main_step.
  destruct (mpc m); repeat case_match; cbn; auto.
Qed.

Lemma raised_in_try_not_except e :
  is_Exception e = true -> raised_in_try e <> M_except.
Proof. destruct e; try discriminate; intros _; discriminate. Qed.

Lemma except_out_of_reach_step e st :
  except_out_of_reach st -> except_out_of_reach (step e st).
Proof.
  intros [Hne Hpre]. unfold step.
  destruct (terminated st); [split; assumption|].
  destruct e as [|o|].
  - pose proof (main_step_handler (env st) (sh st) (mt st)) as Hh.
    assert (Hpc : mpc (snd (main_step (env st) (sh st) (mt st))) <> M_except
                  /\ (sigint_handler (snd (fst (main_step (env st) (sh st) (mt st)))) = false ->
                      in_try (mpc (snd (main_step (env st) (sh st) (mt st)))) = false)).
    { destruct (sigint_handler (sh st)) eqn:Eh.
      - split; [|intros H; rewrite (Hh eq_refl) in H; discriminate H].
        clear Hh. unfold main_step.
        destruct (mpc (mt st)) eqn:Epc; try (now contradiction Hne);
          repeat case_match; cbn; try discriminate;
          try (rewrite Epc; discriminate);
          try (apply raised_in_try_not_except; reflexivity).
        all: apply raised_in_try_not_except;
          first [ eapply getitem_raises; eassumption
                | eapply VideoCapture_raises; eassumption ].
      - specialize (Hpre eq_refl). clear Hh. unfold main_step.
        destruct (mpc (mt st)) eqn:Epc; try discriminate Hpre;
          try (now contradiction Hne);
          repeat case_match; cbn; rewrite ?Epc; split; try discriminate; auto. }
    destruct (main_step (env st) (sh st) (mt st)) as [[w s] m]. exact Hpc.
  - destruct (detector_thread (sh st)); try (split; assumption).
    assert (Hh : sigint_handler (fst (detector_loop_step o (sh st) (dt st)))
                 = sigint_handler (sh st)).
    { unfold detector_loop_step.
      destruct (dpc (dt st)); repeat case_match; reflexivity. }
    destruct (detector_loop_step o (sh st) (dt st)) as [s d].
    cbn [fst] in Hh. split; [exact Hne|]. cbn [sh mt]. rewrite Hh. exact Hpre.
  - unfold sigint. destruct (sigint_handler (sh st)) eqn:Eh.
    + split; [exact Hne | cbn; rewrite Eh; discriminate].
    + specialize (Hpre eq_refl).
      destruct (mpc (mt st)) eqn:Epc; try discriminate Hpre;
        cbn; rewrite ?Epc; split; cbn [mt sh]; rewrite ?Epc;
        try discriminate; auto.
Qed.

(** X8: no run reaches the [except KeyboardInterrupt] clause.  The handler
    of line 86 is installed before the [try] is entered and replaces
    Python's default handling of SIGINT, so no interrupt raises
    [KeyboardInterrupt] inside the [try]: lines 107 to 110, the only place
    where shutdown also sets [cv], never run. *)
Theorem X8_except_clause_is_unreachable (f : config_file)
    (cam : list attempt) (sched : list event) :
  mpc (mt (run sched (init f cam))) <> M_except.
Proof.
  apply (run_invariant except_out_of_reach except_out_of_reach_step sched).
  split; [discriminate | reflexivity].
Qed.

Lemma spaced_app l1 : forall r l2,
  spaced r (l1 ++ l2) = spaced r l1 && spaced (ready_after r l1) l2.
Proof.
  induction l1 as [|a l1 IH]; intros r l2; [reflexivity|].
  destruct a; cbn [app spaced ready_after]; rewrite ?IH; try reflexivity.
  now rewrite andb_assoc.
Qed.

Lemma ready_after_app l1 : forall r l2,
  ready_after r (l1 ++ l2) = ready_after (ready_after r l1) l2.
Proof.
  induction l1 as [|a l1 IH]; intros r l2; [reflexivity|].
  destruct a; cbn [app ready_after]; now rewrite ?IH.
Qed.

Lemma opens_are_spaced_step e st :
  opens_are_spaced st -> opens_are_spaced (step e st).
Proof.
  intros [Hs Hr]. unfold step.
  destruct (terminated st); [split; assumption|].
  destruct e as [|o|].
  - assert (H : spaced true (main_log (snd (main_step (env st) (sh st) (mt st)))) = true
                /\ (before_open (mpc (snd (main_step (env st) (sh st) (mt st)))) = true ->
                    ready_after true (main_log (snd (main_step (env st) (sh st) (mt st)))) = true)).
    { unfold main_step.
      destruct (mpc (mt st)) eqn:Epc; cbn [before_open] in Hr;
        try (destruct (file (env st));
             cbn [load_config bind emit ret raise fst snd app]);
        repeat case_match;
        cbn [snd fst mpc main_log goto set_stream set_read set_frame load_config
             bind emit ret raise app];
        rewrite ?Epc, ?app_nil_r, ?spaced_app, ?ready_after_app, ?Hs;
        cbn [before_open spaced ready_after andb];
        rewrite ?Hr by reflexivity;
        (split; [reflexivity | try discriminate; try reflexivity; auto]). }
    destruct (main_step (env st) (sh st) (mt st)) as [[w s] m]. exact H.
  - destruct (detector_thread (sh st)); try (split; assumption).
    destruct (detector_loop_step o (sh st) (dt st)). split; assumption.
  - unfold sigint, opens_are_spaced.
    destruct (sigint_handler (sh st)); [split; assumption|].
    destruct (mpc (mt st)) eqn:Epc; cbn [before_open in_try] in *;
      cbn; rewrite ?Epc, ?app_nil_r;
      (split; [exact Hs | try discriminate; auto]).
Qed.

(** X9: the supervisor never opens the source twice without sleeping in
    between.  In every run, interrupted or not and whatever the source
    does, each [cv2.VideoCapture] call but the first comes after a
    5-second [time.sleep] that followed the call before: after a failed
    open (line 93) as well as after a lost stream (line 105). *)
Theorem X9_opens_are_spaced_by_backoff (f : config_file)
    (cam : list attempt) (sched : list event) :
  spaced true (main_log (mt (run sched (init f cam)))) = true.
Proof.
  apply (run_invariant opens_are_spaced opens_are_spaced_step sched).
  split; reflexivity.
Qed.

Lemma published_after_read_app l1 : forall r l2,
  published_after_read r (l1 ++ l2)
  = published_after_read r l1 && published_after_read (fresh_after r l1) l2.
Proof.
  induction l1 as [|a l1 IH]; intros r l2; [reflexivity|].
  destruct a as [| | [] [f|] | | | | | |];
    cbn [app published_after_read fresh_after]; rewrite ?IH; try reflexivity.
  now rewrite andb_assoc.
Qed.

Lemma fresh_after_app l1 : forall r l2,
  fresh_after r (l1 ++ l2) = fresh_after (fresh_after r l1) l2.
Proof.
  induction l1 as [|a l1 IH]; intros r l2; [reflexivity|].
  destruct a as [| | [] [f|] | | | | | |]; cbn [app fresh_after];
    now rewrite ?IH.
Qed.

Lemma raised_in_try_not_frame_test e : raised_in_try e <> M_frame_test.
Proof. destruct e; discriminate. Qed.

Ltac log_step Hp :=
  cbn [snd fst mpc main_log ret_local frame_local goto set_stream set_read
       set_frame app raised_in_try];
  rewrite ?app_nil_r, ?published_after_read_app, ?fresh_after_app, ?Hp;
  cbn [published_after_read fresh_after andb].

Lemma publishes_only_frames_step e st :
  mpc (mt st) <> M_except ->
  publishes_only_frames st -> publishes_only_frames (step e st).
Proof.
  intros Hne [Hp Hf]. unfold step.
  destruct (terminated st); [split; assumption|].
  destruct e as [|o|].
  - assert (H : publishes_only_frames
                  {| env := fst (fst (main_step (env st) (sh st) (mt st)));
                     sh := snd (fst (main_step (env st) (sh st) (mt st)));
                     mt := snd (main_step (env st) (sh st) (mt st));
                     dt := dt st |}).
    { unfold publishes_only_frames, main_step. cbn [mt].
      destruct (mpc (mt st)) eqn:Epc; try (now contradiction Hne).
      - destruct (file (env st));
          cbn [load_config bind emit ret raise fst snd app];
          log_step Hp; (split; [reflexivity | discriminate]).
      - log_step Hp. split; [reflexivity | discriminate].
      - log_step Hp. split; [reflexivity | discriminate].
      - log_step Hp. split; [reflexivity | discriminate].
      - destruct (exiting (sh st)); log_step Hp;
          (split; [reflexivity | discriminate]).
      - destruct (getitem _ _) as [a|x];
          [destruct (VideoCapture _) as [[c|x] cam']|]; log_step Hp;
          (split; [reflexivity | try discriminate]).
        all: intros H; now apply raised_in_try_not_frame_test in H.
      - destruct (stream (mt st)) as [c|]; [destruct (opened c)|];
          log_step Hp; (split; [reflexivity | discriminate]).
      - log_step Hp. split; [reflexivity | discriminate].
      - destruct (stream (mt st)) as [c|]; [destruct (_ && _)|];
          log_step Hp; (split; [reflexivity | discriminate]).
      - destruct (stream (mt st)) as [c|];
          [destruct (read c) as [[[] [fr|]] c']|];
          log_step Hp; split; try reflexivity; try discriminate;
          intros _ Hr Hs; try discriminate Hr;
          destruct Hs as [x Hs]; discriminate Hs.
      - destruct (ret_local (mt st)) eqn:Er;
          [destruct (frame_local (mt st)) as [fr|] eqn:Ef|];
          log_step Hp; try (split; [reflexivity | discriminate]).
        rewrite (Hf eq_refl eq_refl (mk_is_Some _ _ eq_refl)).
        split; [reflexivity | discriminate].
      - destruct (stream (mt st)) as [c|]; log_step Hp;
          (split; [reflexivity | discriminate]).
      - log_step Hp. split; [reflexivity | discriminate].
      - destruct (stream (mt st)) as [c|];
          [destruct (gui (env st)); [destruct pending_exn|]|];
          log_step Hp; (split; [reflexivity | discriminate]).
      - destruct (detector_thread (sh st)); log_step Hp; rewrite ?Epc;
          (split; [try reflexivity; assumption | discriminate]).
      - log_step Hp. split; [reflexivity | discriminate].
      - cbn [snd mpc main_log]. rewrite Epc. split; [exact Hp | discriminate].
      - cbn [snd mpc main_log]. rewrite Epc. split; [exact Hp | discriminate]. }
    destruct (main_step (env st) (sh st) (mt st)) as [[w s] m]. exact H.
  - destruct (detector_thread (sh st)); try (split; assumption).
    destruct (detector_loop_step o (sh st) (dt st)). split; assumption.
  - unfold sigint, publishes_only_frames.
    destruct (sigint_handler (sh st)); [split; assumption|].
    destruct (mpc (mt st)) eqn:Epc; cbn; rewrite ?Epc, ?app_nil_r;
      (split; [exact Hp | try discriminate; auto]).
Qed.

(** X10: the supervisor signals [cv] only for a frame it has just read.
    In every run each [cv.set()] of [main] comes right after a
    [stream.read()] that returned [True] together with a frame: nothing is
    signalled after a failed read, after a [None] frame, or at shutdown. *)
Theorem X10_cv_is_set_only_after_a_good_read (f : config_file)
    (cam : list attempt) (sched : list event) :
  published_after_read false (main_log (mt (run sched (init f cam)))) = true.
Proof.
  assert (H : except_out_of_reach (run sched (init f cam))
              /\ publishes_only_frames (run sched (init f cam))).
  { apply (run_invariant
             (fun st => except_out_of_reach st /\ publishes_only_frames st)).
    - intros e st [He Hp]. split.
      + now apply except_out_of_reach_step.
      + apply publishes_only_frames_step; [exact (proj1 He) | exact Hp].
    - split; split; try reflexivity; discriminate. }
  exact (proj1 (proj2 H)).
Qed.

Lemma run_invariant_quiet (P : state -> Prop) :
  (forall st, P st -> P (step EMain st)) ->
  (forall o st, P st -> P (step (EDetector o) st)) ->
  forall sched st, no_sigint sched = true -> P st -> P (run sched st).
Proof.
  intros Hm Hd sched. induction sched as [|e sched IH]; intros st Hs H;
    [exact H|].
  destruct e as [|o|]; [| |discriminate Hs]; cbn [run]; apply IH; auto.
Qed.

Lemma detector_keeps_main o s d :
  exiting (fst (detector_loop_step o s d)) = exiting s
  /\ config (fst (detector_loop_step o s d)) = config s
  /\ sigint_handler (fst (detector_loop_step o s d)) = sigint_handler s.
Proof.
  unfold detector_loop_step.
  destruct (dpc d); repeat case_match; repeat split; cbn; congruence.
Qed.

Section NeverFatal.
Variable cfg addr : json.
Hypothesis Hcfg : getitem cfg "camera_rtsp_stream" = Ok addr.

Lemma keeps_supervising_terminated st :
  keeps_supervising cfg st -> terminated st = None.
Proof.
  intros (Hpc & _). unfold terminated.
  destruct (detector_thread (sh st)); [|reflexivity|];
    destruct (mpc (mt st)); try reflexivity; discriminate Hpc.
Qed.

Ltac ks_fields :=
  cbn [fst snd env sh mt mpc stream exiting config file camera goto set_stream
       set_read set_frame set_config set_cv set_exiting set_thread set_handler
       supervising before_open in_try needs_stream orb];
  repeat match goal with |- _ /\ _ => split end;
  first [ reflexivity | assumption | discriminate
        | left; reflexivity | right; left; reflexivity
        | right; right; assumption | right; right; reflexivity
        | right; assumption | right; reflexivity
        | intros; discriminate
        | intros; eexists; reflexivity
        | intros; eexists; eassumption
        | solve [intros; auto] ].

Lemma keeps_supervising_main st :
  keeps_supervising cfg st -> keeps_supervising cfg (step EMain st).
Proof.
  intros H. pose proof (keeps_supervising_terminated _ H) as Ht.
  destruct H as (Hpc & Hex & Hfile & Hconf & Hstr & Hcam).
  unfold step. rewrite Ht. unfold keeps_supervising, main_step.
  destruct (mpc (mt st)) eqn:Epc; try discriminate Hpc;
    cbn [needs_stream] in Hstr.
  - rewrite (Hfile eq_refl). cbn [load_config ret]. ks_fields.
  - destruct Hconf as [?|Hconf]; [discriminate|]. ks_fields.
  - destruct Hconf as [?|Hconf]; [discriminate|].
    destruct Hex as [?|[?|Hex]]; try discriminate.
    ks_fields.
  - destruct Hconf as [?|Hconf]; [discriminate|].
    destruct Hex as [?|[?|Hex]]; try discriminate.
    ks_fields.
  - destruct Hconf as [?|Hconf]; [discriminate|].
    destruct Hex as [?|[?|Hex]]; try discriminate.
    rewrite Hex. ks_fields.
  - destruct Hconf as [?|Hconf]; [discriminate|].
    destruct Hex as [?|[?|Hex]]; try discriminate.
    rewrite Hconf, Hcfg.
    destruct (camera (env st)) as [|[|reads|msg] cam0]; cbn in Hcam;
      try discriminate Hcam; cbn [VideoCapture]; ks_fields.
  - destruct Hconf as [?|Hconf]; [discriminate|].
    destruct Hex as [?|[?|Hex]]; try discriminate.
    destruct (Hstr eq_refl) as [c Hc]. rewrite Hc.
    destruct (opened c); ks_fields.
  - destruct Hconf as [?|Hconf]; [discriminate|].
    destruct Hex as [?|[?|Hex]]; try discriminate.
    ks_fields.
  - destruct Hconf as [?|Hconf]; [discriminate|].
    destruct Hex as [?|[?|Hex]]; try discriminate.
    destruct (Hstr eq_refl) as [c Hc]. rewrite Hc.
    destruct (opened c && negb (exiting (sh st))); ks_fields.
  - destruct Hconf as [?|Hconf]; [discriminate|].
    destruct Hex as [?|[?|Hex]]; try discriminate.
    destruct (Hstr eq_refl) as [c Hc]. rewrite Hc.
    destruct (read c) as [r c'].
    ks_fields.
  - destruct Hconf as [?|Hconf]; [discriminate|].
    destruct Hex as [?|[?|Hex]]; try discriminate.
    destruct (ret_local (mt st)); [destruct (frame_local (mt st))|];
      ks_fields.
  - destruct Hconf as [?|Hconf]; [discriminate|].
    destruct Hex as [?|[?|Hex]]; try discriminate.
    destruct (Hstr eq_refl) as [c Hc]. rewrite Hc.
    ks_fields.
  - destruct Hconf as [?|Hconf]; [discriminate|].
    destruct Hex as [?|[?|Hex]]; try discriminate.
    ks_fields.
Qed.

Lemma keeps_supervising_detector o st :
  keeps_supervising cfg st -> keeps_supervising cfg (step (EDetector o) st).
Proof.
  intros H. pose proof (keeps_supervising_terminated _ H) as Ht.
  unfold step. rewrite Ht.
  destruct (detector_thread (sh st)); try exact H.
  destruct (detector_keeps_main o (sh st) (dt st)) as (He & Hc & _).
  destruct (detector_loop_step o (sh st) (dt st)) as [s d].
  cbn [fst] in He, Hc. destruct H as (H1 & H2 & H3 & H4 & H5 & H6).
  unfold keeps_supervising. cbn [sh mt env]. rewrite He, Hc.
  repeat split; assumption.
Qed.
End NeverFatal.

(** X11: failures of the source are never fatal.  With a text address
    configured for the stream, a source whose [cv2.VideoCapture] calls
    return (as they do for a text address) and no interrupt, whatever the
    source does (refuses to connect, fails a read, hands out [None],
    ends), in whatever order the threads run, [main] stays in its loop: it
    neither returns nor dies, and the process does not end. *)
Theorem X11_source_failures_are_never_fatal (cfg : json) (url : string)
    (cam : list attempt) (sched : list event) :
  getitem cfg "camera_rtsp_stream" = Ok (JString url) ->
  never_rejects cam = true ->
  no_sigint sched = true ->
  supervising (mpc (mt (run sched (init (FileParsed cfg) cam)))) = true
  /\ terminated (run sched (init (FileParsed cfg) cam)) = None.
Proof.
  intros Hcfg Hcam Hs.
  assert (H : keeps_supervising cfg (run sched (init (FileParsed cfg) cam))).
  { apply run_invariant_quiet; [| |exact Hs|].
    - apply (keeps_supervising_main cfg (JString url) Hcfg).
    - intros o st. apply keeps_supervising_detector.
    - repeat split; cbn; auto. discriminate. }
  split; [exact (proj1 H) | eapply keeps_supervising_terminated, H].
Qed.

Lemma X11_source_failures_are_never_fatal_witness :
  terminated (run (replicate 40 EMain)
                (init (FileParsed example_config)
                      [Unreachable; Connects [(true, Some 1%nat); (false, None)];
                       Connects [(true, None)]]))
  = None.
Proof.
  refine (proj2 (X11_source_failures_are_never_fatal example_config
                   "rtsp://camera.local/stream" _ _ _ _ _)).
  - vm_compute. reflexivity.
  - reflexivity.
  - reflexivity.
Defined.

(** ** Shutdown, further *)

Lemma raised_in_try_pending e :
  raised_in_try e = M_except \/ raised_in_try e = M_finally (Some e).
Proof. destruct e; auto. Qed.

Lemma leaves_gracefully_step e st :
  leaves_gracefully st -> leaves_gracefully (step e st).
Proof.
  intros H. unfold step.
  destruct (terminated st); [exact H|].
  destruct e as [|o|].
  - unfold leaves_gracefully in *. unfold main_step.
    destruct (mpc (mt st)) eqn:Epc.
    + destruct (file (env st));
        cbn [load_config bind emit ret raise fst snd app]; cbn;
        try exact I; discriminate.
    + exact I.
    + exact I.
    + exact I.
    + destruct (exiting (sh st)) eqn:Ee; cbn; [exact Ee | exact I].
    + destruct (getitem _ _) as [a|x];
        [destruct (VideoCapture _) as [[c|x] cam']; [exact I|]|];
        cbn; destruct (raised_in_try_pending x) as [-> | ->]; exact I.
    + destruct (stream (mt st)) as [c|]; [destruct (opened c)|]; exact I.
    + exact I.
    + destruct (stream (mt st)) as [c|]; [destruct (_ && _)|]; exact I.
    + destruct (stream (mt st)) as [c|]; [destruct (read c)|]; exact I.
    + destruct (ret_local (mt st)); [destruct (frame_local (mt st))|]; exact I.
    + destruct (stream (mt st)) as [c|]; exact I.
    + exact I.
    + cbn. reflexivity.
    + destruct (stream (mt st)) as [c|]; [|exact I].
      destruct (gui (env st)); [|exact I].
      destruct pending_exn; cbn; [exact I | exact H].
    + destruct (detector_thread (sh st)) eqn:Et; cbn; rewrite ?Epc; auto.
    + cbn. intros _. exact H.
    + cbn. rewrite Epc. exact H.
    + cbn. rewrite Epc. exact I.
  - destruct (detector_thread (sh st)) eqn:Et; try exact H.
    destruct (detector_keeps_main o (sh st) (dt st)) as (He & _ & _).
    destruct (detector_loop_step o (sh st) (dt st)) as [s d].
    cbn [fst] in He. unfold leaves_gracefully in *. cbn [mt sh].
    rewrite He, Et in *.
    destruct (mpc (mt st)) as [| | | | | | | | | | | | | |[]| | |c|];
      try exact I; try exact H; try (destruct H; discriminate).
    intros Hc. destruct (H Hc). discriminate.
  - unfold sigint, leaves_gracefully in *.
    destruct (sigint_handler (sh st)).
    + cbn. destruct (mpc (mt st)) as [| | | | | | | | | | | | | |[]| | |c|];
        try exact I; try reflexivity;
        try (split; [reflexivity | exact (proj2 H)]).
      intros Hc. split; [reflexivity | exact (proj2 (H Hc))].
    + destruct (mpc (mt st)) eqn:Epc; cbn; rewrite ?Epc; try exact I; exact H.
Qed.

(** X12: exit status 0 is only reached the graceful way.  In every run
    that ends with [sys.exit(0)], the shutdown signal is set and the
    detector thread has ended before [main] returned. *)
Theorem X12_status_zero_means_graceful (f : config_file)
    (cam : list attempt) (sched : list event) :
  terminated (run sched (init f cam)) = Some (Exited 0) ->
  exiting (sh (run sched (init f cam))) = true
  /\ detector_thread (sh (run sched (init f cam))) = Finished.
Proof.
  assert (H : leaves_gracefully (run sched (init f cam))).
  { apply run_invariant; [exact leaves_gracefully_step | exact I]. }
  unfold terminated, leaves_gracefully in *.
  destruct (detector_thread (sh (run sched (init f cam)))); try discriminate;
    destruct (mpc (mt (run sched (init f cam)))); try discriminate;
    intros [= ->]; now apply H.
Qed.

Lemma X12_status_zero_means_graceful_witness :
  let o := {| decode := Decoded ""; now := 0; post := PostOk |} in
  exiting (sh (run (replicate 10 EMain ++ replicate 4 (EDetector o)
                    ++ [ESigint] ++ replicate 7 EMain)
                 (init (FileParsed example_config)
                       [Connects [(true, Some 7%nat)]])))
  = true.
Proof.
  cbv zeta.
  refine (proj1 (X12_status_zero_means_graceful _ _ _ _)).
  vm_compute. reflexivity.
Defined.

Lemma exiting_stays_step e st :
  events_exist (mpc (mt st)) = true /\ exiting (sh st) = true ->
  events_exist (mpc (mt (step e st))) = true /\ exiting (sh (step e st)) = true.
Proof.
  intros [Hpc He]. unfold step.
  destruct (terminated st); [split; assumption|].
  destruct e as [|o|].
  - assert (H : events_exist (mpc (snd (main_step (env st) (sh st) (mt st)))) = true
                /\ exiting (snd (fst (main_step (env st) (sh st) (mt st)))) = true).
    { unfold main_step.
      destruct (mpc (mt st)) eqn:Epc; try discriminate Hpc;
        repeat case_match; cbn; rewrite ?Epc; split;
        try reflexivity; try assumption.
      all: try discriminate He.
      all: match goal with
           | |- events_exist (raised_in_try ?x) = true => destruct x; reflexivity
           end. }
    destruct (main_step (env st) (sh st) (mt st)) as [[w s] m]. exact H.
  - destruct (detector_thread (sh st)); try (split; assumption).
    destruct (detector_keeps_main o (sh st) (dt st)) as (Hx & _ & _).
    destruct (detector_loop_step o (sh st) (dt st)) as [s d].
    cbn [fst] in Hx. cbn [mt sh]. rewrite Hx. split; assumption.
  - unfold sigint. destruct (sigint_handler (sh st)); [split; [exact Hpc | reflexivity]|].
    destruct (mpc (mt st)) eqn:Epc; try discriminate Hpc; cbn; rewrite ?Epc;
      split; try reflexivity; assumption.
Qed.

(** X13: the shutdown signal is never cleared.  Once the events exist and
    [exiting] is set, it stays set through everything that can happen:
    nothing in the module calls [exiting.clear()]. *)
Theorem X13_shutdown_signal_is_never_cleared (st : state)
    (sched : list event) :
  events_exist (mpc (mt st)) = true ->
  exiting (sh st) = true ->
  exiting (sh (run sched st)) = true.
Proof.
  intros Hpc He.
  apply (run_invariant
           (fun st => events_exist (mpc (mt st)) = true
                      /\ exiting (sh st) = true)
           exiting_stays_step sched st (conj Hpc He)).
Qed.

Lemma X13_shutdown_signal_is_never_cleared_witness :
  let o := {| decode := Decoded ""; now := 0; post := PostOk |} in
  exiting (sh (run [EMain; EDetector o; EMain; ESigint; EMain]
                 (run (replicate 4 EMain ++ [ESigint])
                    (init (FileParsed example_config) [Unreachable]))))
  = true.
Proof.
  cbv zeta.
  refine (X13_shutdown_signal_is_never_cleared _ _ _ _); reflexivity.
Defined.

(** *** Shutdown once the detector has ended *)

Lemma steps_to_exit_zero pc :
  winding_down pc = true -> steps_to_exit pc = 0%nat -> pc = M_exited 0.
Proof.
  destruct pc as [| | | | | | | | | | | | | |[]| | |c|]; try discriminate.
  destruct c; try discriminate. reflexivity.
Qed.

Ltac sd_fields :=
  repeat split; auto; try (right; eexists; reflexivity);
  try (left; cbn; lia).

Lemma shutting_down_main st :
  shutting_down st ->
  shutting_down (step EMain st)
  /\ ((steps_to_exit (mpc (mt (step EMain st))) < steps_to_exit (mpc (mt st)))%nat
      \/ steps_to_exit (mpc (mt st)) = 0%nat).
Proof.
  intros (He & Hh & Ht & Hg & Ho & Hs & Hw). unfold step, terminated.
  rewrite Ht. unfold shutting_down, open_returns in *.
  destruct (mpc (mt st)) eqn:Epc; try discriminate Hw;
    try (destruct Hs as [Hs|[c Hs]]; [discriminate Hs|]).
  - (* line 89 *)
    unfold main_step. rewrite Epc, He. cbn. rewrite Hs.
    sd_fields.
  - (* line 90 *)
    unfold main_step. rewrite Epc. unfold text_address in Ho.
    apply andb_prop in Ho as [Ha Hr].
    destruct (getitem (config (sh st)) "camera_rtsp_stream") as [[]|];
      try discriminate Ha.
    destruct (camera (env st)) as [|[|reads|msg] cam0]; cbn in Hr;
      try discriminate Hr; cbn; sd_fields.
  - unfold main_step. rewrite Epc, Hs.
    destruct (opened c); cbn; rewrite Hs;
      sd_fields.
  - unfold main_step. rewrite Epc. cbn. rewrite Hs.
    sd_fields.
  - unfold main_step. rewrite Epc, Hs, He, andb_false_r. cbn. rewrite Hs.
    sd_fields.
  - unfold main_step. rewrite Epc, Hs. destruct (read c) as [r c']. cbn.
    sd_fields.
  - unfold main_step. rewrite Epc.
    destruct (ret_local (mt st)); [destruct (frame_local (mt st))|];
      cbn; rewrite Hs;
      sd_fields.
  - unfold main_step. rewrite Epc, Hs. cbn.
    sd_fields.
  - unfold main_step. rewrite Epc. cbn. rewrite Hs.
    sd_fields.
  - destruct pending_exn; [discriminate Hw|].
    unfold main_step. rewrite Epc, Hs, Hg. cbn.
    sd_fields.
  - unfold main_step. rewrite Epc, Ht. cbn. rewrite Hs.
    sd_fields.
  - unfold main_step. rewrite Epc. cbn. rewrite Hs.
    sd_fields.
  - cbn. rewrite Epc. cbn. repeat split; auto;
      try (right; eexists; exact Hs).
Qed.

Lemma shutting_down_other e st :
  e <> EMain ->
  shutting_down st ->
  shutting_down (step e st) /\ mpc (mt (step e st)) = mpc (mt st).
Proof.
  intros Hne H. unfold step. destruct (terminated st); [split; auto|].
  destruct e as [|o|]; [contradiction| |].
  - destruct H as (He & Hh & Ht & Hrest). rewrite Ht.
    split; [|reflexivity]. repeat split; tauto.
  - destruct H as (He & Hh & Ht & Hg & Ho & Hs & Hw).
    unfold sigint. rewrite Hh. cbn. split; [|reflexivity].
    repeat split; assumption.
Qed.

Lemma shutting_down_run sched : forall st,
  shutting_down st ->
  (steps_to_exit (mpc (mt st)) <= main_steps sched)%nat ->
  terminated (run sched st) = Some (Exited 0).
Proof.
  assert (Hdone : forall st, shutting_down st ->
            steps_to_exit (mpc (mt st)) = 0%nat ->
            terminated st = Some (Exited 0)).
  { intros st (_ & _ & Ht & _ & _ & _ & Hw) H0.
    unfold terminated. rewrite Ht, (steps_to_exit_zero _ Hw H0). reflexivity. }
  induction sched as [|e sched IH]; intros st H Hn.
  - cbn [run]. apply Hdone; [exact H|].
    change (main_steps []) with 0%nat in Hn. lia.
  - cbn [run]. destruct e as [|o|].
    + change (main_steps (EMain :: sched)) with (S (main_steps sched)) in Hn.
      destruct (shutting_down_main st H) as [H' [Hlt|H0]].
      * apply IH; [exact H' | lia].
      * pose proof (Hdone st H H0) as Hx.
        unfold step. rewrite Hx, (run_terminated sched st _ Hx). exact Hx.
    + destruct (shutting_down_other (EDetector o) st) as [H' Hpc];
        [discriminate | exact H |].
      apply IH; [exact H'|]. rewrite Hpc. exact Hn.
    + destruct (shutting_down_other ESigint st) as [H' Hpc];
        [discriminate | exact H |].
      apply IH; [exact H'|]. rewrite Hpc. exact Hn.
Qed.

Lemma steps_to_exit_bound pc : (steps_to_exit pc <= 9)%nat.
Proof. destruct pc; cbn; lia. Qed.

(** X14: graceful shutdown works once the detector thread has ended.  On
    an OpenCV build with window support, with the handler installed, the
    shutdown signal set, the detector thread ended and [stream] bound (or
    [main] about to open a text address with a call that returns), [main]
    leaves its loop, releases the stream, passes [join] and returns: the
    process ends with status 0 by the time [main] has made 9 steps,
    whatever else happens meanwhile. *)
Theorem X14_shutdown_completes_after_detector_ended (st : state)
    (sched : list event) :
  shutting_down st ->
  (9 <= main_steps sched)%nat ->
  terminated (run sched st) = Some (Exited 0).
Proof.
  intros H Hn. apply shutting_down_run; [exact H|].
  pose proof (steps_to_exit_bound (mpc (mt st))). lia.
Qed.

Lemma X14_shutdown_completes_after_detector_ended_witness :
  let o := {| decode := Decoded ""; now := 0; post := PostOk |} in
  terminated
    (run (replicate 5 EMain ++ [ESigint; EDetector o] ++ replicate 4 EMain)
       (run (replicate 10 EMain ++ replicate 4 (EDetector o) ++ [ESigint])
          (init (FileParsed example_config) [Connects [(true, Some 7%nat)]])))
  = Some (Exited 0).
Proof.
  cbv zeta.
  refine (X14_shutdown_completes_after_detector_ended _ _ _ _).
  - vm_compute. repeat split; try reflexivity. right. eexists. reflexivity.
  - vm_compute. lia.
Defined.

(** X15: when shutdown strands the detector.  From any state in which the
    shutdown signal is set under the installed handler, the detector sits
    in [cv.wait()] with [cv] clear, and [main] is past every point where
    it could still call [cv.set()], the process never ends: the detector
    waits forever and [main] waits for it in [join], however many
    interrupts follow. *)
Theorem X15_stranded_detector_blocks_exit (st : state) (sched : list event) :
  detector_stranded st ->
  terminated (run sched st) = None /\ dpc (dt (run sched st)) = D_wait.
Proof.
  intros H. destruct (detector_stranded_forever st sched H) as (Ht & Hd & _).
  split; assumption.
Qed.

Lemma X15_stranded_detector_blocks_exit_witness :
  let o := {| decode := Decoded ""; now := 0; post := PostOk |} in
  terminated
    (run (replicate 6 EMain ++ [ESigint; EDetector o; EMain])
       (run (replicate 10 EMain ++ replicate 2 (EDetector o) ++ [ESigint])
          (init (FileParsed example_config)
                [Connects [(true, None)]])))
  = None.
Proof.
  cbv zeta.
  refine (proj1 (X15_stranded_detector_blocks_exit _ _ _)).
  vm_compute. repeat split.
Defined.

Lemma detector_does_nothing_step e st :
  detector_does_nothing st -> detector_does_nothing (step e st).
Proof.
  intros (Hg & Hl & Hpc). unfold step.
  destruct (terminated st); [now repeat split|].
  destruct e as [|o|].
  - pose proof (main_step_globals (env st) (sh st) (mt st)) as Hm.
    destruct (main_step (env st) (sh st) (mt st)) as [[w s] m].
    cbn [fst snd] in Hm. unfold detector_does_nothing. cbn [sh dt].
    rewrite Hm. now repeat split.
  - destruct (detector_thread (sh st)); try (now repeat split).
    unfold detector_loop_step, detector_does_nothing.
    destruct (dpc (dt st)) as [| | | | | | |[]] eqn:Epc; try discriminate Hpc.
    + cbn [sh dt dgoto dpc det_log set_debounce]. rewrite Hl. now repeat split.
    + destruct (exiting (sh st));
        cbn [sh dt dgoto dpc det_log set_thread globals]; rewrite Hl;
        now repeat split.
    + destruct (cv (sh st)); cbn [sh dt dgoto dpc det_log];
        rewrite ?Hl, ?Epc; now repeat split.
    + rewrite Hg, module_globals_frame.
      cbn [sh dt dgoto dpc det_log set_thread globals]. rewrite Hl.
      now repeat split.
    + cbn [sh dt]. rewrite Epc. now repeat split.
    + cbn [sh dt]. rewrite Epc. now repeat split.
  - unfold sigint, detector_does_nothing.
    destruct (sigint_handler (sh st)); [now repeat split|].
    destruct (mpc (mt st)); try destruct (in_try _); now repeat split.
Qed.

(** X16: as the module stands, the detector never reports anything.  In
    every run its log stays empty, so no tag event is ever sent and no
    record is ever logged from [detector_loop]; the thread only sets up,
    tests, waits, and ends: by returning when it finds [exiting] set, or
    with [NameError] the first time it is woken. *)
Theorem X16_detector_never_reports (f : config_file) (cam : list attempt)
    (sched : list event) :
  det_log (dt (run sched (init f cam))) = []
  /\ dispatches (det_log (dt (run sched (init f cam)))) = 0%nat
  /\ detector_idle (dpc (dt (run sched (init f cam)))) = true.
Proof.
  assert (H : detector_does_nothing (run sched (init f cam))).
  { apply run_invariant; [exact detector_does_nothing_step|]. now repeat split. }
  destruct H as (_ & Hl & Hpc). rewrite Hl. now repeat split.
Qed.

Lemma released_before_open_app l1 : forall h l2,
  released_before_open h (l1 ++ l2)
  = released_before_open h l1 && released_before_open (held_after h l1) l2.
Proof.
  induction l1 as [|a l1 IH]; intros h l2; [reflexivity|].
  destruct a; cbn [app released_before_open held_after]; rewrite ?IH;
    try reflexivity.
  now rewrite andb_assoc.
Qed.

Lemma held_after_app l1 : forall h l2,
  held_after h (l1 ++ l2) = held_after (held_after h l1) l2.
Proof.
  induction l1 as [|a l1 IH]; intros h l2; [reflexivity|].
  destruct a; cbn [app held_after]; now rewrite ?IH.
Qed.

Ltac stream_step Hr :=
  cbn [snd fst mpc main_log stream goto set_stream set_read set_frame app
       raised_in_try];
  rewrite ?app_nil_r, ?released_before_open_app, ?held_after_app, ?Hr;
  cbn [released_before_open held_after andb between_streams before_open].

Lemma one_stream_at_a_time_step e st :
  one_stream_at_a_time st -> one_stream_at_a_time (step e st).
Proof.
  intros (Hr & Hb & Ho). unfold step.
  destruct (terminated st); [repeat split; assumption|].
  destruct e as [|o|].
  - assert (H : one_stream_at_a_time
                  {| env := fst (fst (main_step (env st) (sh st) (mt st)));
                     sh := snd (fst (main_step (env st) (sh st) (mt st)));
                     mt := snd (main_step (env st) (sh st) (mt st));
                     dt := dt st |}).
    { unfold one_stream_at_a_time, main_step. cbn [mt].
      destruct (mpc (mt st)) eqn:Epc;
        cbn [between_streams before_open] in Hb.
      - destruct (file (env st));
          cbn [load_config bind emit ret raise fst snd app];
          stream_step Hr; (repeat split; auto; discriminate).
      - stream_step Hr. repeat split; auto; discriminate.
      - stream_step Hr. repeat split; auto; discriminate.
      - stream_step Hr. repeat split; auto; discriminate.
      - destruct (exiting (sh st)); stream_step Hr;
          (repeat split; auto; discriminate).
      - destruct (getitem _ _) as [a|x].
        + destruct (VideoCapture _) as [[c|x] cam']; stream_step Hr.
          * rewrite (Hb eq_refl). cbn [negb andb].
            repeat split; try discriminate. intros _ c0 [= <-]. reflexivity.
          * destruct x; cbn; repeat split; auto; discriminate.
        + stream_step Hr. destruct x; cbn; repeat split; auto; discriminate.
      - destruct (stream (mt st)) as [c|] eqn:Es;
          [destruct (opened c) eqn:Eo|]; stream_step Hr;
          repeat split; auto; try discriminate.
        intros _. rewrite (Ho eq_refl c eq_refl). exact Eo.
      - stream_step Hr. repeat split; auto; discriminate.
      - destruct (stream (mt st)) as [c|]; [destruct (_ && _)|];
          stream_step Hr; (repeat split; auto; discriminate).
      - destruct (stream (mt st)) as [c|]; [destruct (read c) as [r c']|];
          stream_step Hr; (repeat split; auto; discriminate).
      - destruct (ret_local (mt st)); [destruct (frame_local (mt st))|];
          stream_step Hr; (repeat split; auto; discriminate).
      - destruct (stream (mt st)) as [c|]; stream_step Hr;
          (repeat split; auto; discriminate).
      - stream_step Hr. repeat split; auto; discriminate.
      - stream_step Hr. repeat split; auto; discriminate.
      - destruct (stream (mt st)) as [c|];
          [destruct (gui (env st)); [destruct pending_exn|]|];
          stream_step Hr; (repeat split; auto; discriminate).
      - destruct (detector_thread (sh st)); stream_step Hr; rewrite ?Epc;
          (repeat split; auto; discriminate).
      - stream_step Hr. repeat split; auto; discriminate.
      - cbn [snd mpc main_log]. rewrite Epc. repeat split; auto; discriminate.
      - cbn [snd mpc main_log]. rewrite Epc. repeat split; auto; discriminate. }
    destruct (main_step (env st) (sh st) (mt st)) as [[w s] m]. exact H.
  - destruct (detector_thread (sh st)); try (repeat split; assumption).
    destruct (detector_loop_step o (sh st) (dt st)). repeat split; assumption.
  - unfold sigint, one_stream_at_a_time.
    destruct (sigint_handler (sh st)); [repeat split; assumption|].
    destruct (mpc (mt st)) eqn:Epc; cbn; rewrite ?Epc, ?app_nil_r;
      (repeat split; auto; discriminate).
Qed.

(** X17: one stream at a time.  In every run the supervisor calls
    [cv2.VideoCapture] only when no stream it opened is still unreleased:
    a stream that opened is released ([stream.release()], line 104 or 112)
    before the next open. *)
Theorem X17_stream_released_before_reopen (f : config_file)
    (cam : list attempt) (sched : list event) :
  released_before_open false (main_log (mt (run sched (init f cam)))) = true.
Proof.
  apply (run_invariant one_stream_at_a_time one_stream_at_a_time_step sched).
  repeat split; try discriminate.
Qed.

Lemma main_step_config w s m :
  mpc m <> M_load_config ->
  config (snd (fst (main_step w s m))) = config s
  /\ file (fst (fst (main_step w s m))) = file w.
Proof.
  intros H. unfold main_step.
  destruct (mpc m); try (now contradiction H); repeat case_match;
    split; reflexivity.
Qed.

Lemma config_is_loaded_step j e st :
  config_is_loaded j st -> config_is_loaded j (step e st).
Proof.
  intros [Hf Hc]. unfold step.
  destruct (terminated st) eqn:Et; [split; assumption|].
  destruct e as [|o|].
  - assert (H : config_is_loaded j
                  {| env := fst (fst (main_step (env st) (sh st) (mt st)));
                     sh := snd (fst (main_step (env st) (sh st) (mt st)));
                     mt := snd (main_step (env st) (sh st) (mt st));
                     dt := dt st |}).
    { unfold config_is_loaded. cbn [env sh mt].
      destruct (mpc (mt st)) eqn:Epc;
        [unfold main_step; rewrite Epc, Hf; cbn; split; [exact Hf | now left]
        |destruct (main_step_config (env st) (sh st) (mt st)) as [Hx Hy];
         [rewrite Epc; discriminate|]; rewrite Hx, Hy;
         split; [exact Hf|];
         destruct Hc as [Hc|[Hn [Hc|Hc]]];
         [now left | discriminate Hc
         |first [discriminate Hc
                |unfold terminated in Et; rewrite Hn, Epc in Et;
                 discriminate Et]]..]. }
    destruct (main_step (env st) (sh st) (mt st)) as [[w s] m]. exact H.
  - assert (Hst : config_is_loaded j st) by (split; assumption).
    destruct (detector_thread (sh st)) eqn:Ed; try exact Hst.
    destruct (detector_keeps_main o (sh st) (dt st)) as (_ & Hx & _).
    destruct (detector_loop_step o (sh st) (dt st)) as [s d].
    cbn [fst] in Hx. unfold config_is_loaded. cbn [env sh mt]. rewrite Hx.
    split; [exact Hf|]. destruct Hc as [Hc|[Hn _]]; [now left | discriminate Hn].
  - unfold sigint, config_is_loaded.
    destruct (sigint_handler (sh st)).
    + cbn. split; [exact Hf|]. exact Hc.
    + destruct Hc as [Hc|[Hn [Hc|Hc]]].
      * destruct (mpc (mt st)); try destruct (in_try _); cbn;
          (split; [exact Hf | now left]).
      * rewrite Hc. cbn. split; [exact Hf|]. right. split; [exact Hn | now right].
      * rewrite Hc. cbn. split; [exact Hf|]. right. split; [exact Hn|].
        right. exact Hc.
Qed.

(** X18: the configuration is loaded once and read-only afterwards.  When
    the file parses, [load_config] hands on what [json.load] returned, and
    nothing assigns or changes [config] again: in every run, once the
    detector thread is started, and all through the [try] of [main],
    [config] is that value. *)
Theorem X18_config_is_read_only (j : json) (cam : list attempt)
    (sched : list event) :
  let st := run sched (init (FileParsed j) cam) in
  (detector_thread (sh st) <> NotStarted -> config (sh st) = j)
  /\ (in_try (mpc (mt st)) = true -> config (sh st) = j).
Proof.
  cbv zeta.
  assert (H : config_is_loaded j (run sched (init (FileParsed j) cam))).
  { apply (run_invariant (config_is_loaded j) (config_is_loaded_step j) sched).
    split; [reflexivity|]. right. split; [reflexivity | now left]. }
  destruct H as [_ [Hc|[Hn [Hc|Hc]]]]; split; intros H; auto;
    try contradiction; rewrite Hc in H; discriminate H.
Qed.

Lemma X18_config_is_read_only_witness :
  config (sh (run (replicate 9 EMain ++ [ESigint; EMain])
                (init (FileParsed example_config) [Unreachable])))
  = example_config.
Proof.
  refine (proj1 (X18_config_is_read_only example_config [Unreachable] _) _).
  vm_compute. discriminate.
Defined.

(** ** The detector loop and the frame lookup *)

Lemma detector_died_forever e st sched :
  dpc (dt st) = D_died e -> dpc (dt (run sched st)) = D_died e.
Proof.
  apply (run_invariant (fun st => dpc (dt st) = D_died e)).
  clear. intros ev st H. unfold step.
  destruct (terminated st); [exact H|]. destruct ev as [|o|].
  - destruct (main_step (env st) (sh st) (mt st)) as [[w s] m]. exact H.
  - destruct (detector_thread (sh st)); [exact H | | exact H].
    unfold detector_loop_step. rewrite H. exact H.
  - destruct (sigint (sh st) (mt st)). exact H.
Qed.

(** C2, on the code: the error that meets every frame ends the loop.  The
    [try] of lines 60 to 70 would catch and log what decoding and
    processing raise, but the lookup of [frame] on line 59 stands outside
    it and raises [NameError] each time the detector is woken.  So in
    every run the loop never gets as far as the [try] or as [cv.clear()],
    and nothing is ever logged by the detector; in the run below the
    first published frame kills the thread, uncaught and unlogged, and the
    next frame the supervisor publishes finds no detector: the thread stays
    dead whatever happens next. *)
Theorem C2_frame_lookup_error_ends_the_loop :
  (forall f cam sched,
     let st := run sched (init f cam) in
     det_log (dt st) = []
     /\ dpc (dt st) <> D_clear
     /\ forall img, dpc (dt st) <> D_try img)
  /\ (let o := {| decode := Decoded "https://www.home-assistant.io/tag/ab12";
                  now := 0; post := PostOk |} in
      let st := run (replicate 10 EMain ++ replicate 4 (EDetector o))
                  (init (FileParsed example_config)
                        [Connects [(true, Some 7%nat); (true, Some 8%nat)]]) in
      dpc (dt st) = D_died (NameError "frame")
      /\ detector_thread (sh st) = Finished
      /\ det_log (dt st) = []
      /\ main_log (mt (run (replicate 3 EMain ++ [EDetector o]) st))
         = [AOpen true; ARead true (Some 7%nat); ASetCv;
            ARead true (Some 8%nat); ASetCv]
      /\ forall sched,
           dpc (dt (run sched st)) = D_died (NameError "frame")
           /\ det_log (dt (run sched st)) = []).
Proof.
  split.
  - intros f cam sched. cbv zeta.
    assert (H : detector_does_nothing (run sched (init f cam))).
    { apply run_invariant; [exact detector_does_nothing_step|].
      now repeat split. }
    destruct H as (_ & Hl & Hpc). split; [exact Hl|].
    destruct (dpc (dt (run sched (init f cam)))); try discriminate Hpc;
      split; try discriminate; intros img; discriminate.
  - cbv zeta.
    split; [vm_compute; reflexivity|]. split; [vm_compute; reflexivity|].
    split; [vm_compute; reflexivity|]. split; [vm_compute; reflexivity|].
    intros sched. split.
    + apply detector_died_forever. vm_compute. reflexivity.
    + assert (H : detector_does_nothing
                    (run sched
                       (run (replicate 10 EMain ++ replicate 4 (EDetector
                               {| decode := Decoded "https://www.home-assistant.io/tag/ab12";
                                  now := 0; post := PostOk |}))
                          (init (FileParsed example_config)
                             [Connects [(true, Some 7%nat); (true, Some 8%nat)]])))).
      { apply run_invariant; [exact detector_does_nothing_step|].
        vm_compute. now repeat split. }
      exact (proj1 (proj2 H)).
Qed.

(** X19: the [try] statement on its own contains every error.  With a
    frame in hand, whatever [Exception] the decoder, the debounce test, the
    configuration lookup or the sink raises, lines 60 to 70 complete: the
    error is logged at level ERROR or EXCEPTION after what was done before
    it, and the debounce variables are as they were. *)
Theorem X19_try_statement_contains_errors (config : json)
    (st : debounce_state) (img : value) (o : det_oracle) :
  errors_only o = true ->
  exists l st',
    process_frame config st img o = (l, Ok st')
    /\ forall e, snd (try_suite config st img o) = Raise e ->
         st' = st
         /\ exists lvl msg,
              is_error_level lvl = true
              /\ l = fst (try_suite config st img o) ++ [ALog lvl msg].
Proof.
  intros Ho. pose proof (process_frame_contains config st img o Ho) as H.
  destruct (try_suite config st img o) as [l [st'|e]].
  - exists l, st'. split; [exact H|]. intros e [=].
  - destruct H as (lvl & msg & Hlvl & H).
    exists (l ++ [ALog lvl msg]), st. split; [exact H|].
    intros _ _. split; [reflexivity|]. exists lvl, msg. split; [exact Hlvl|].
    reflexivity.
Qed.

Lemma X19_try_statement_contains_errors_witness :
  exists l st',
    process_frame example_config debounce_init (VFrame 3%nat)
      {| decode := DecodeRaises (Cv2Error "bad frame"); now := 0;
         post := PostOk |}
    = (l, Ok st').
Proof.
  destruct (X19_try_statement_contains_errors example_config debounce_init
              (VFrame 3%nat)
              {| decode := DecodeRaises (Cv2Error "bad frame"); now := 0;
                 post := PostOk |} eq_refl) as (l & st' & H & _).
  exists l, st'. exact H.
Defined.

(** ** Shutdown on a headless build *)

Lemma main_step_gui w s m :
  gui (fst (fst (main_step w s m))) = gui w.
Proof.
  unfold main_step. destruct (mpc m); repeat case_match;
    cbn [fst snd gui]; congruence.
Qed.

Lemma no_clean_exit_raised e : no_clean_exit (raised_in_try e) = true.
Proof. destruct e; reflexivity. Qed.

Lemma headless_step e st :
  gui (env st) = false /\ no_clean_exit (mpc (mt st)) = true ->
  gui (env (step e st)) = false /\ no_clean_exit (mpc (mt (step e st))) = true.
Proof.
  intros [Hg Hpc]. unfold step.
  destruct (terminated st); [split; assumption|].
  destruct e as [|o|].
  - pose proof (main_step_gui (env st) (sh st) (mt st)) as Hw.
    assert (H : no_clean_exit (mpc (snd (main_step (env st) (sh st) (mt st))))
                = true).
    { unfold main_step.
      destruct (mpc (mt st)) eqn:Epc; try discriminate Hpc;
        try (destruct (file (env st));
             cbn [load_config bind emit ret raise fst snd app]);
        rewrite ?Hg; repeat case_match; cbn [snd mpc goto set_stream set_read
          set_frame]; rewrite ?Epc, ?no_clean_exit_raised;
        try reflexivity; try assumption. }
    destruct (main_step (env st) (sh st) (mt st)) as [[w s] m].
    cbn [fst snd] in Hw, H. cbn [env mt]. rewrite Hw. split; assumption.
  - destruct (detector_thread (sh st)); try (split; assumption).
    destruct (detector_loop_step o (sh st) (dt st)). split; assumption.
  - unfold sigint. destruct (sigint_handler (sh st)); [split; assumption|].
    destruct (mpc (mt st)) eqn:Epc; try destruct (in_try _); cbn;
      rewrite ?Epc; split; try reflexivity; assumption.
Qed.

(** X20: on a headless OpenCV build no run ends with status 0.
    [cv2.destroyAllWindows()] raises in the [finally] clause, so [main]
    never reaches [join] nor [return 0]: shutdown ends with a traceback,
    or not at all. *)
Theorem X20_headless_build_never_exits_zero (f : config_file)
    (cam : list attempt) (sched : list event) :
  terminated (run sched (init_headless f cam)) <> Some (Exited 0).
Proof.
  assert (H : gui (env (run sched (init_headless f cam))) = false
              /\ no_clean_exit (mpc (mt (run sched (init_headless f cam)))) = true).
  { apply (run_invariant
             (fun st => gui (env st) = false
                        /\ no_clean_exit (mpc (mt st)) = true)
             headless_step). split; reflexivity. }
  destruct H as [_ H]. unfold terminated.
  destruct (detector_thread _); try discriminate;
    destruct (mpc _) as [| | | | | | | | | | | | | | | | |c|]; try discriminate;
    destruct c; try discriminate; discriminate H.
Qed.
